(* ===================================================================== *)
(* supermarket-customer-behavior: the data-frame transformations of      *)
(* supermarket_customer_behavior/data/__init__.py and                     *)
(* supermarket_customer_behavior/model/transition_matrix.py, embedded as  *)
(* functions on sequences of rows, and the properties of the              *)
(* specification proved about them.                                       *)
(* ===================================================================== *)

From HB Require Import structures.
From Stdlib Require Import String.
From Stdlib Require DecimalString DecimalNat.
From mathcomp Require Import ssreflect ssrfun ssrbool eqtype ssrnat seq path.
From mathcomp Require Import choice bigop ssralg ssrnum ssrint rat.

Set Implicit Arguments.
Unset Strict Implicit.
Unset Printing Implicit Defensive.

Import GRing.Theory Num.Theory.
Local Open Scope ring_scope.

(* --------------------------------------------------------------------- *)
(* Data model                                                             *)
(* --------------------------------------------------------------------- *)

(* Column values.  Locations and customer numbers are strings (load_all
   prefixes the customer number with the day name; the integers load_day
   leaves are written out); timestamps are instants, counted in seconds. *)
HB.instance Definition _ := hasDecEq.Build string String.eqb_spec.

(* One row of the frame that load_day / load_all return.  A pandas row
   carries its index label with it: sort_values moves the label along with
   the row, and column assignment is aligned on it. *)
Record ScanRecord := Scan {
  row_label   : nat;
  timestamp   : nat;
  customer_no : string;
  location    : string
}.

Definition scan_to_tuple (r : ScanRecord) :=
  (row_label r, timestamp r, customer_no r, location r).
Definition tuple_to_scan (p : nat * nat * string * string) :=
  Scan p.1.1.1 p.1.1.2 p.1.2 p.2.
Lemma scan_tupleK : cancel scan_to_tuple tuple_to_scan.
Proof. by case. Qed.
HB.instance Definition _ := Equality.copy ScanRecord (can_type scan_tupleK).

(* A row once add_entry_exit has added its three columns. *)
Record AnnotatedRecord := Annotated {
  scan                  :> ScanRecord;
  entry                 : bool;
  exit                  : bool;
  customer_count_change : int
}.

Definition annotated_to_tuple (r : AnnotatedRecord) :=
  (scan r, entry r, exit r, customer_count_change r).
Definition tuple_to_annotated (p : ScanRecord * bool * bool * int) :=
  Annotated p.1.1.1 p.1.1.2 p.1.2 p.2.
Lemma annotated_tupleK : cancel annotated_to_tuple tuple_to_annotated.
Proof. by case. Qed.
HB.instance Definition _ :=
  Equality.copy AnnotatedRecord (can_type annotated_tupleK).

(* Columns of an annotated frame. *)
Notation annotated_timestamp := (fun r : AnnotatedRecord => timestamp r).
Notation labels df := [seq row_label r | r : AnnotatedRecord <- df].
Notation timestamps df := [seq timestamp r | r : AnnotatedRecord <- df].
Notation customers df := [seq customer_no r | r : AnnotatedRecord <- df].
Notation visits df :=
  [seq (customer_no r, timestamp r) | r : AnnotatedRecord <- df].

(* Exceptions the modelled calls can raise, and the outcome of a call. *)
Inductive exception := ValueError | IndexError | KeyError.

Inductive result (T : Type) :=
  | Ok of T
  | Raise of exception.
Arguments Raise {T} _.

Definition bind_result (A B : Type) (x : result A) (f : A -> result B) :
    result B :=
  match x with
  | Ok a => f a
  | Raise e => Raise e
  end.

(* --------------------------------------------------------------------- *)
(* pandas primitives                                                      *)
(* --------------------------------------------------------------------- *)

(* df.sort_values(by="timestamp"): pandas asks numpy for the positions of
   the timestamps in ascending order (argsort, of kind "quicksort" unless
   told otherwise) and takes the rows at these positions.  The default kind
   does not say where it leaves equal timestamps, and it may move them even
   in a column that is sorted already.  All that is fixed of it here is
   that the positions it returns are a permutation of the positions of the
   column that puts the timestamps in ascending order. *)
Class sort_kind := SortKind {
  argsort : seq nat -> seq nat;
  argsort_perm : forall ts, perm_eq (argsort ts) (iota 0 (size ts));
  argsort_sorted : forall ts, sorted leq [seq nth 0%N ts i | i <- argsort ts]
}.

(* df.take(indexer) *)
Definition take_rows (T : Type) (df : seq T) (indexer : seq nat) : seq T :=
  pmap (nth None [seq Some r | r <- df]) indexer.

Definition by_timestamp (T : Type) (ts : T -> nat) : rel T :=
  fun r1 r2 => (ts r1 <= ts r2)%N.

Definition sort_values {kind : sort_kind} (T : Type) (ts : T -> nat)
    (df : seq T) : seq T :=
  take_rows df (argsort [seq ts r | r <- df]).

(* Two kinds of sort: kind="stable", which leaves equal timestamps in the
   order they had, and a sort that leaves them in the opposite order. *)
Definition stable_argsort (ts : seq nat) : seq nat :=
  sort (relpre (nth 0%N ts) leq) (iota 0 (size ts)).

Definition reversing_argsort (ts : seq nat) : seq nat :=
  sort (relpre (nth 0%N ts) leq) (rev (iota 0 (size ts))).

Lemma stable_argsort_perm (ts : seq nat) :
  perm_eq (stable_argsort ts) (iota 0 (size ts)).
Proof. by rewrite /stable_argsort perm_sort. Qed.

Lemma stable_argsort_sorted (ts : seq nat) :
  sorted leq [seq nth 0%N ts i | i <- stable_argsort ts].
Proof.
by rewrite sorted_map; apply: sort_sorted => i j; exact: leq_total.
Qed.

Lemma reversing_argsort_perm (ts : seq nat) :
  perm_eq (reversing_argsort ts) (iota 0 (size ts)).
Proof. by rewrite /reversing_argsort perm_sort perm_rev. Qed.

Lemma reversing_argsort_sorted (ts : seq nat) :
  sorted leq [seq nth 0%N ts i | i <- reversing_argsort ts].
Proof.
by rewrite sorted_map; apply: sort_sorted => i j; exact: leq_total.
Qed.

Definition stable_kind : sort_kind :=
  SortKind stable_argsort_perm stable_argsort_sorted.

Definition reversing_kind : sort_kind :=
  SortKind reversing_argsort_perm reversing_argsort_sorted.

(* Series.duplicated(): True at every position whose value occurred at an
   earlier position. *)
Fixpoint duplicated_from (T : eqType) (seen : seq T) (s : seq T) : seq bool :=
  if s is x :: s' then (x \in seen) :: duplicated_from (x :: seen) s'
  else [::].

Definition duplicated (T : eqType) (s : seq T) : seq bool :=
  duplicated_from [::] s.

(* df.loc[mask, col] = v *)
Definition loc_assign (mask : seq bool) (v : int) (col : seq int) : seq int :=
  [seq if mc.1 then v else mc.2 | mc <- zip mask col].

(* df.reset_index(drop=True) *)
Definition set_label (i : nat) (r : AnnotatedRecord) : AnnotatedRecord :=
  Annotated (Scan i (timestamp r) (customer_no r) (location r))
            (entry r) (exit r) (customer_count_change r).

Definition reset_index (df : seq AnnotatedRecord) : seq AnnotatedRecord :=
  [seq set_label ir.1 ir.2 | ir <- zip (iota 0 (size df)) df].

(* Series.sum(), DataFrame.sum(axis=1) *)
Definition sum_of (R : zmodType) (s : seq R) : R := foldr +%R 0 s.

(* Series.cumsum() *)
Definition cumsum (s : seq int) : seq int := scanl +%R 0 s.

(* A pandas Series: values together with their index labels. *)
Definition series (T : Type) := seq (nat * T).

Definition lookup_label (T : Type) (d : T) (s : series T) (l : nat) : T :=
  nth d (unzip2 s) (index l (unzip1 s)).

(* df[col] = value, for a Series value.  pandas takes the values as they
   come when the index of the Series equals the index of the frame;
   otherwise it reindexes the Series on the labels of the frame, which
   raises ValueError when the Series carries a label twice.  A label the
   Series lacks would give a missing cell, which a boolean mask reads as
   False. *)
Definition setitem_align (value : series bool) (labels : seq nat) :
    result (seq bool) :=
  if unzip1 value == labels then Ok (unzip2 value)
  else if ~~ uniq (unzip1 value) then Raise ValueError
  else Ok [seq lookup_label false value l | l <- labels].

(* A frame after groupby / unstack / crosstab: column labels, and one row
   of cells per index key. *)
Record frame (K V : Type) := Frame {
  columns : seq string;
  rows    : seq (K * seq V)
}.

(* frame.loc[:, labels]: a label that is not a column raises KeyError
   (pandas 1.0 and later; before that the column came back filled with
   NaN, with a warning). *)
Definition loc_columns (K V : Type) (d : V) (f : frame K V)
    (labels : seq string) : result (frame K V) :=
  if all (fun l => l \in columns f) labels then
    Ok (Frame labels
          [seq (row.1, [seq nth d row.2 (index l (columns f)) | l <- labels])
          | row <- rows f])
  else Raise KeyError.

(* seq.iloc[0]: IndexError on an empty selection. *)
Definition iloc0 (T : Type) (s : seq T) : result T :=
  if s is x :: _ then Ok x else Raise IndexError.

(* The calls of a groupby(...).apply, group after group: the first one that
   raises ends the whole call. *)
Fixpoint collect (A : Type) (s : seq (result A)) : result (seq A) :=
  if s is x :: s' then
    bind_result x (fun a => bind_result (collect s') (fun r => Ok (a :: r)))
  else Ok [::].

(* Series.shift(-1): every value moves one position up, the last position
   is left missing. *)
Definition shift_up (T : Type) (s : seq T) : seq (option T) :=
  if s is _ :: s' then rcons [seq Some x | x <- s'] None else [::].

(* Series.where(cond, None) *)
Definition where_cond (T : Type) (cond : seq bool) (s : seq (option T)) :
    seq (option T) :=
  [seq if cv.1 then cv.2 else None | cv <- zip cond s].

(* pd.crosstab(a, b, normalize="index"): the pairs with a missing
   component are left out; the labels of both axes are the values that
   occur, sorted; every count is divided by the sum of its row.  (Division
   by zero gives 0 in rat, which is what the final fillna(0) of crosstab
   puts there.) *)
Definition crosstab_normalize_index (a : seq string) (b : seq (option string)) :
    frame string rat :=
  let pairs :=
    pmap (fun p => if p.2 is Some y then Some (p.1, y) else None) (zip a b) in
  let index := sort String.leb (undup [seq p.1 | p <- pairs]) in
  let columns := sort String.leb (undup [seq p.2 | p <- pairs]) in
  let counts i := [seq (count_mem (i, j) pairs)%:R : rat | j <- columns] in
  Frame columns
    [seq (i, let total := sum_of (counts i) in [seq x / total | x <- counts i])
    | i <- index].

(* --------------------------------------------------------------------- *)
(* data/__init__.py                                                       *)
(* --------------------------------------------------------------------- *)

Definition add_entry_exit {kind : sort_kind} (df : seq ScanRecord) :
    seq AnnotatedRecord :=
  let df := sort_values timestamp df in
  let entry := [seq ~~ d | d <- duplicated [seq customer_no r | r <- df]] in
  let exit := [seq location r == "checkout"%string | r <- df] in
  let ccc := nseq (size df) (0 : int) in
  let ccc := loc_assign entry 1 ccc in
  let ccc := loc_assign exit (-1) ccc in
  [seq Annotated q.1.1.1 q.1.1.2 q.1.2 q.2
  | q <- zip (zip (zip df entry) exit) ccc].

Definition filter_non_exiting_customers {kind : sort_kind}
    (df : seq AnnotatedRecord) : result (seq AnnotatedRecord) :=
  let df := sort_values annotated_timestamp df in
  let reversed := rev df in
  let value :=
    zip (labels reversed) [seq ~~ d | d <- duplicated (customers reversed)] in
  bind_result (setitem_align value (labels df)) (fun last_appearance =>
    let invalid_customers :=
      mask [seq lr.1 && ~~ exit lr.2 | lr <- zip last_appearance df]
           (customers df) in
    Ok (reset_index
          [seq r : AnnotatedRecord <- df
          | customer_no r \notin invalid_customers])).

(* The locations argument is taken as the list it is turned into. *)
Definition customers_by_location (df : seq ScanRecord)
    (locations : seq string) : result (frame nat nat) :=
  let timestamps := sort leq (undup [seq timestamp r | r <- df]) in
  let present := sort String.leb (undup [seq location r | r <- df]) in
  let customers_by_location :=
    Frame present
      [seq (t, [seq count (fun r => (timestamp r == t) && (location r == l)) df
               | l <- present])
      | t <- timestamps] in
  loc_columns 0%N customers_by_location locations.

(* The lambda of compute_customer_time_in_store, on the rows of one
   customer. *)
Definition time_in_store (customer : seq AnnotatedRecord) : result int :=
  bind_result (iloc0 [seq r <- customer | exit r]) (fun x =>
  bind_result (iloc0 [seq r <- customer | entry r]) (fun e =>
  Ok ((timestamp x)%:Z - (timestamp e)%:Z))).

Definition compute_customer_time_in_store (df : seq AnnotatedRecord) :
    result (seq (string * int)) :=
  collect
    [seq bind_result
           (time_in_store [seq r : AnnotatedRecord <- df | customer_no r == c])
           (fun d => Ok (c, d))
    | c <- sort String.leb (undup (customers df))].

Definition compute_customer_total (df : seq AnnotatedRecord) :
    seq (nat * int) :=
  let customer_total := cumsum [seq customer_count_change r | r <- df] in
  let cols := zip (timestamps df) customer_total in
  [seq (t, last 0 [seq p.2 | p <- cols & p.1 == t])
  | t <- sort leq (undup (timestamps df))].

(* --------------------------------------------------------------------- *)
(* model/transition_matrix.py                                             *)
(* --------------------------------------------------------------------- *)

(* df.sort_values(by=["customer_no", "timestamp"]) *)
Definition by_customer_timestamp : rel AnnotatedRecord :=
  fun r1 r2 =>
    if customer_no r1 == customer_no r2 then (timestamp r1 <= timestamp r2)%N
    else String.ltb (customer_no r1) (customer_no r2).

Section TransitionMatrix.

(* The kind of sort behind sort_values(by="timestamp"). *)
Context {kind : sort_kind}.

(* The frame load_all() reads from the data files. *)
Variable loaded : seq ScanRecord.

(* add_entrance_location is imported from the data module, which does not
   define it; the matrix is built from whatever frame it returns. *)
Variable add_entrance_location : seq AnnotatedRecord -> seq AnnotatedRecord.

Definition get_transition_matrix : result (frame string rat) :=
  let df := loaded in
  let df := add_entry_exit df in
  bind_result (filter_non_exiting_customers df) (fun df =>
    let df := add_entrance_location df in
    let df := sort by_customer_timestamp df in
    let location := [seq location r | r : AnnotatedRecord <- df] in
    let next_location :=
      where_cond [seq ~~ exit r | r <- df] (shift_up location) in
    Ok (crosstab_normalize_index location next_location)).

End TransitionMatrix.

(* --------------------------------------------------------------------- *)
(* paths/__init__.py                                                      *)
(* --------------------------------------------------------------------- *)

(* An absolute, resolved pathlib.Path: its components below the root. *)
Definition Path := seq string.

(* path.parents[k]: the k-th ancestor, IndexError beyond the root. *)
Definition parents (p : Path) (k : nat) : result Path :=
  if (k < size p)%N then Ok (take (size p - k.+1) p) else Raise IndexError.

(* path.joinpath(name), for a name without separator. *)
Definition joinpath (p : Path) (name : string) : Path := rcons p name.

Inductive WeekDay := MONDAY | TUESDAY | WEDNESDAY | THURSDAY | FRIDAY.

(* day.value *)
Definition WeekDay_value (day : WeekDay) : string :=
  match day with
  | MONDAY => "monday"
  | TUESDAY => "tuesday"
  | WEDNESDAY => "wednesday"
  | THURSDAY => "thursday"
  | FRIDAY => "friday"
  end.

(* The days in the order "for day in WeekDay" goes through them. *)
Definition WeekDay_members : seq WeekDay :=
  [:: MONDAY; TUESDAY; WEDNESDAY; THURSDAY; FRIDAY].

Section Paths.

(* Path(__file__).resolve(), for the file of the paths module. *)
Variable module_file : Path.

Definition project_root_path : result Path := parents module_file 2.

Definition root_module_path : result Path := parents module_file 1.

Definition data_dir_path : result Path :=
  bind_result project_root_path (fun root => Ok (joinpath root "data")).

Definition day_data_file_path (day : WeekDay) : result Path :=
  bind_result data_dir_path (fun dir =>
    Ok (joinpath dir (append (WeekDay_value day) ".csv"))).

End Paths.

(* --------------------------------------------------------------------- *)
(* data/__init__.py: loading                                              *)
(* --------------------------------------------------------------------- *)

(* One line of a day's file as read_csv parses it; the customer number is
   an integer there. *)
Record CsvRow := Csv {
  csv_timestamp   : nat;
  csv_customer_no : nat;
  csv_location    : string
}.

(* str(n), the decimal writing of an integer. *)
Definition str (n : nat) : string :=
  DecimalString.NilEmpty.string_of_uint (Nat.to_uint n).

(* A frame as read_csv builds it: the lines labelled 0, 1, 2, ... *)
Definition frame_of_lines (lines : seq CsvRow) : seq ScanRecord :=
  [seq Scan il.1 (csv_timestamp il.2) (str (csv_customer_no il.2))
            (csv_location il.2)
  | il <- zip (iota 0 (size lines)) lines].

(* df.reset_index(drop=True), on a frame without the added columns. *)
Definition reset_scan_index (df : seq ScanRecord) : seq ScanRecord :=
  [seq Scan ir.1 (timestamp ir.2) (customer_no ir.2) (location ir.2)
  | ir <- zip (iota 0 (size df)) df].

Section Loading.

Variable module_file : Path.

(* pd.read_csv(path, sep=";", parse_dates=["timestamp"]): the lines of the
   file at that path, or the exception the call raises. *)
Variable read_csv : Path -> result (seq CsvRow).

Definition load_day (day : WeekDay) (prefix_customer_no : bool) :
    result (seq ScanRecord) :=
  bind_result (day_data_file_path module_file day) (fun path =>
  bind_result (read_csv path) (fun lines =>
    let df := frame_of_lines lines in
    let df :=
      if prefix_customer_no then
        [seq Scan (row_label r) (timestamp r)
                  (append (append (WeekDay_value day) "_") (customer_no r))
                  (location r)
        | r <- df]
      else df in
    Ok df)).

Definition load_all : result (seq ScanRecord) :=
  bind_result (collect [seq load_day day true | day <- WeekDay_members])
    (fun days => Ok (reset_scan_index (flatten days))).

End Loading.

(* list(locations) in customers_by_location: a str is iterable, so a single
   name is taken character by character (collections.Iterable, Python 3.9
   and before). *)
Definition list_of_locations (locations : string + seq string) : seq string :=
  match locations with
  | inl name => [seq String c EmptyString | c <- list_ascii_of_string name]
  | inr names => names
  end.

Definition customers_by_location_of (df : seq ScanRecord)
    (locations : string + seq string) : result (frame nat nat) :=
  customers_by_location df (list_of_locations locations).

(* --------------------------------------------------------------------- *)
(* Vocabulary of the properties, and the same functions row by row      *)
(* --------------------------------------------------------------------- *)

(* location == "checkout" *)
Definition is_checkout (r : ScanRecord) : bool :=
  location r == "checkout"%string.

(* The three new cells of a row, given the customers seen above it. *)
Definition tag_row (seen : seq string) (r : ScanRecord) : AnnotatedRecord :=
  Annotated r (customer_no r \notin seen) (is_checkout r)
    (if is_checkout r then -1 else if customer_no r \notin seen then 1 else 0).

(* add_entry_exit on a sorted frame, one row after the other. *)
Fixpoint tag_from (seen : seq string) (df : seq ScanRecord) :
    seq AnnotatedRecord :=
  if df is r :: df' then tag_row seen r :: tag_from (customer_no r :: seen) df'
  else [::].

(* The same cells, read off the whole frame: a row opens a visit when it is
   the first row of its customer. *)
Definition tag_first (seen : seq string) (df : seq ScanRecord)
    (r : ScanRecord) : AnnotatedRecord :=
  let first := ohead [seq x <- df | customer_no x == customer_no r] in
  let fresh := (customer_no r \notin seen) && (first == Some r) in
  Annotated r fresh (is_checkout r)
    (if is_checkout r then -1 else if fresh then 1 else 0).

(* The row that opens a customer's visit. *)
Definition entry_row (r : ScanRecord) : AnnotatedRecord :=
  Annotated r true (is_checkout r) (if is_checkout r then -1 else 1).

(* The exit flag of the last row of customer c in the frame: whether the
   customer's last appearance is at the checkout. *)
Definition reaches_checkout (df : seq AnnotatedRecord) (c : string) : bool :=
  last false [seq exit r | r : AnnotatedRecord <- df & customer_no r == c].

(* The columns of a row, without its index label. *)
Definition cells (r : AnnotatedRecord) :=
  (timestamp r, customer_no r, location r, entry r, exit r,
   customer_count_change r).

(* True at every position whose value occurs again further down. *)
Fixpoint recurs (T : eqType) (s : seq T) : seq bool :=
  if s is x :: s' then (x \in s') :: recurs s' else [::].

(* invalid_customers, one row after the other: the customers of the rows
   that are a last appearance and not an exit. *)
Fixpoint invalid_from (df : seq AnnotatedRecord) : seq string :=
  if df is r :: df' then
    if (customer_no r \notin customers df') && ~~ exit r
    then customer_no r :: invalid_from df' else invalid_from df'
  else [::].

(* reset_index, one row after the other. *)
Fixpoint relabel_from (n : nat) (df : seq AnnotatedRecord) :
    seq AnnotatedRecord :=
  if df is r :: df' then set_label n r :: relabel_from n.+1 df' else [::].

(* The least of the timestamps of some rows (0 when there is no row). *)
Definition earliest (rows : seq AnnotatedRecord) : nat :=
  if rows is r :: rows' then
    foldr minn (timestamp r) [seq timestamp x | x : AnnotatedRecord <- rows']
  else 0%N.

(* The group of customer c in df.groupby("customer_no"). *)
Definition customer_rows (df : seq AnnotatedRecord) (c : string) :
    seq AnnotatedRecord :=
  [seq r : AnnotatedRecord <- df | customer_no r == c].

(* Every customer of the table has an entry = true row and an exit = true
   row. *)
Definition entered_and_exited (df : seq AnnotatedRecord) : bool :=
  all (fun c => has entry (customer_rows df c) && has exit (customer_rows df c))
      (customers df).

(* Every customer of the table has exactly one exit = true row, and that
   row is not the customer's entry = true row. *)
Definition exits_once_after_entry (df : seq AnnotatedRecord) : bool :=
  all (fun c => (count exit (customer_rows df c) == 1%N) &&
                ~~ has (fun r : AnnotatedRecord => entry r && exit r)
                       (customer_rows df c))
      (customers df).

(* No customer of the table has more than one exit = true row, and no
   entry = true row is an exit = true row. *)
Definition exits_at_most_once_after_entry (df : seq AnnotatedRecord) : bool :=
  all (fun c => (count exit (customer_rows df c) <= 1)%N &&
                ~~ has (fun r : AnnotatedRecord => entry r && exit r)
                       (customer_rows df c))
      (customers df).

(* The customer number load_day writes with prefix_customer_no:
   day.value + "_" + str(n). *)
Definition customer_id (day : WeekDay) (n : nat) : string :=
  append (append (WeekDay_value day) "_") (str n).

(* The lines read from the file of a day (none if the path or the reading
   raises). *)
Definition day_lines (module_file : Path)
    (read_csv : Path -> result (seq CsvRow)) (day : WeekDay) : seq CsvRow :=
  if bind_result (day_data_file_path module_file day) read_csv is Ok lines
  then lines else [::].

(* A place for the paths module, and day files of which Monday's holds
   two lines, Tuesday's one and the others none. *)
Definition example_module_file : Path :=
  [:: "project"; "supermarket_customer_behavior"; "paths";
      "__init__.py"]%string.

Definition example_read_csv (path : Path) : result (seq CsvRow) :=
  if path == [:: "project"; "data"; "monday.csv"]%string then
    Ok [:: Csv 1 1 "dairy"; Csv 2 1 "checkout"]
  else if path == [:: "project"; "data"; "tuesday.csv"]%string then
    Ok [:: Csv 9 1 "fruit"]
  else Ok [::].

(* Seventeen rows with the same timestamp, at the labels 0 to 16;
   customer A has the rows labelled 1 and 14, every other row has a
   customer of its own. *)
Definition equal_timestamps_frame : seq ScanRecord :=
  [seq Scan i 5 (if (i == 1%N) || (i == 14%N) then "A"%string else str i)
            "dairy"
  | i <- iota 0 17].

(* A tagged table of seventeen rows with the same timestamp, every row the
   only row of its customer, at the checkout. *)
Definition equal_timestamps_tagged : seq AnnotatedRecord :=
  [seq Annotated (Scan i 5 (str i) "checkout") true true (-1)
  | i <- iota 0 17].

(* Modelled from the spec: add_entrance_location, which the data module
   does not define.  The synthetic location "entrance" is injected before
   the first recorded location of every customer. *)
Definition entrance_before_entry (df : seq AnnotatedRecord) :
    seq AnnotatedRecord :=
  flatten
    [seq if entry r then
           [:: Annotated (Scan (row_label r) (timestamp r) (customer_no r)
                               "entrance") false false 0; r]
         else [:: r]
    | r : AnnotatedRecord <- df].

(* The frame a call returned (the empty frame if it raised). *)
Definition frame_of (K V : Type) (x : result (frame K V)) : frame K V :=
  if x is Ok m then m else Frame [::] [::].

(* Customer A visits dairy, then the checkout; customer B visits dairy,
   spices, then the checkout. *)
Definition spec_example : seq ScanRecord :=
  [:: Scan 0 1 "A" "dairy"; Scan 1 2 "A" "checkout"; Scan 2 3 "B" "dairy";
      Scan 3 4 "B" "spices"; Scan 4 5 "B" "checkout"].

(* ===================================================================== *)
(* Properties                                                             *)
(* ===================================================================== *)

(* --------------------------------------------------------------------- *)
(* Sorting by timestamp                                                   *)
(* --------------------------------------------------------------------- *)

Section SortValues.

Context {kind : sort_kind}.

Variables (T : eqType) (ts : T -> nat).

Lemma by_timestamp_total : total (by_timestamp ts).
Proof. by move=> x y; exact: leq_total. Qed.

Lemma by_timestamp_trans : transitive (by_timestamp ts).
Proof. by move=> y x z; exact: leq_trans. Qed.

(* Taking the rows at all the positions of a frame, in whatever order,
   gives the rows of the frame, each once. *)
Lemma take_rows_iota (df : seq T) : take_rows df (iota 0 (size df)) = df.
Proof.
have pmap_map (f : nat -> option T) s : pmap f s = pmap id [seq f i | i <- s].
  by elim: s => [|i s IH] //=; case: (f i) => [r|] /=; rewrite IH.
rewrite /take_rows pmap_map -[size df](size_map Some) -/(mkseq _ _).
by rewrite mkseq_nth (map_pK (f := id)).
Qed.

Lemma perm_take_rows (df : seq T) (indexer : seq nat) :
  perm_eq indexer (iota 0 (size df)) -> perm_eq (take_rows df indexer) df.
Proof.
by move=> /(perm_pmap (nth None [seq Some r | r <- df]));
   rewrite -/(take_rows df _) -/(take_rows df _) take_rows_iota.
Qed.

Lemma timestamps_take_rows (df : seq T) (indexer : seq nat) :
  all (fun i => i < size df)%N indexer ->
  [seq ts r | r <- take_rows df indexer] =
  [seq nth 0%N [seq ts r | r <- df] i | i <- indexer].
Proof.
rewrite /take_rows; elim: indexer => [|i s IH] //= /andP[i_df /IH{}IH].
have [x0] : inhabited T by case: (df) i_df => [|x s'].
by rewrite (nth_map x0) //= IH (nth_map x0).
Qed.

Lemma perm_sort_values (df : seq T) : perm_eq (sort_values ts df) df.
Proof. by apply: perm_take_rows; rewrite -(size_map ts) argsort_perm. Qed.

Lemma mem_sort_values (df : seq T) : sort_values ts df =i df.
Proof. exact/perm_mem/perm_sort_values. Qed.

Lemma size_sort_values (df : seq T) : size (sort_values ts df) = size df.
Proof. exact/perm_size/perm_sort_values. Qed.

Lemma sort_values_sorted (df : seq T) :
  sorted (by_timestamp ts) (sort_values ts df).
Proof.
have -> : sorted (by_timestamp ts) =1
          fun s => sorted leq [seq ts r | r <- s].
  by move=> s; rewrite sorted_map.
rewrite timestamps_take_rows ?argsort_sorted //.
rewrite (perm_all _ (argsort_perm _)) size_map.
by apply/allP => i; rewrite mem_iota.
Qed.

(* The sort keeps the rows that a test selects, each once. *)
Lemma perm_filter_sort_values (p : pred T) (df : seq T) :
  perm_eq (filter p (sort_values ts df)) (filter p df).
Proof. by rewrite perm_filter // perm_sort_values. Qed.

(* A frame with at most one row is left as it is. *)
Lemma sort_values_small (df : seq T) :
  (size df <= 1)%N -> sort_values ts df = df.
Proof. by move=> small; apply: perm_small_eq (perm_sort_values df). Qed.

(* Rows that share one timestamp are sorted in whatever order they come. *)
Lemma same_timestamp_sorted (m : nat) (df : seq T) :
  all (fun r => ts r == m) df -> sorted (by_timestamp ts) df.
Proof.
case: df => [|r df] //= /andP[/eqP r_m].
elim: df r r_m => [|r' df IH] r r_m //= /andP[/eqP r'_m all_m].
by rewrite /by_timestamp r_m r'_m leqnn IH.
Qed.

(* The first row of a sorted frame has the least timestamp. *)
Lemma sorted_head_min (r : T) (df : seq T) :
  sorted (by_timestamp ts) (r :: df) -> all (fun r' => ts r <= ts r')%N df.
Proof. by move=> /= /(order_path_min by_timestamp_trans). Qed.

End SortValues.

Section Revisits.

Context {kind : sort_kind}.

Variables (T : eqType) (ts : T -> nat) (customer : T -> string).

Implicit Types (df s : seq T) (c : string).

(* A frame without two rows of one timestamp has one ascending order. *)
Lemma sorted_perm_uniq_eq s df :
  sorted (by_timestamp ts) s -> sorted (by_timestamp ts) df ->
  perm_eq s df -> uniq [seq ts r | r <- df] -> s = df.
Proof.
move=> sorted_s sorted_df s_df uniq_df.
have uniq_s : uniq [seq ts r | r <- s] by rewrite (perm_uniq (perm_map _ s_df)).
pose earlier := relpre ts ltn.
apply: (@irr_sorted_eq _ earlier) => //.
- by move=> y x z; exact: ltn_trans.
- by move=> x; exact: ltnn.
- by rewrite -sorted_map ltn_sorted_uniq_leq uniq_s sorted_map.
- by rewrite -sorted_map ltn_sorted_uniq_leq uniq_df sorted_map.
- exact: perm_mem.
Qed.

Lemma uniq_customer_timestamps df c :
  uniq [seq (customer r, ts r) | r <- df] ->
  uniq [seq ts r | r <- df & customer r == c].
Proof.
move=> uniq_df.
have: uniq [seq (customer r, ts r) | r <- df & customer r == c].
  exact: subseq_uniq (map_subseq _ (filter_subseq _ _)) uniq_df.
have -> : [seq (customer r, ts r) | r <- df & customer r == c] =
          [seq (c, t) | t <- [seq ts r | r <- df & customer r == c]].
  rewrite -map_comp; apply/eq_in_map => r.
  by rewrite mem_filter => /andP[/eqP <- _].
have pair_inj : injective (pair c : nat -> string * nat) by move=> x y [].
by rewrite (map_inj_uniq pair_inj).
Qed.

(* Sorting again leaves the rows of every customer in their order when no
   customer has two rows of one timestamp. *)
Lemma customer_rows_sort_values df c :
  sorted (by_timestamp ts) df -> uniq [seq (customer r, ts r) | r <- df] ->
  [seq r <- sort_values ts df | customer r == c] =
  [seq r <- df | customer r == c].
Proof.
move=> sorted_df uniq_df; apply: sorted_perm_uniq_eq.
- apply: sorted_filter; first exact: by_timestamp_trans.
  exact: sort_values_sorted.
- exact: sorted_filter (@by_timestamp_trans _ _) _ _ sorted_df.
- exact: perm_filter_sort_values.
- exact: uniq_customer_timestamps.
Qed.

End Revisits.

(* --------------------------------------------------------------------- *)
(* add_entry_exit, row by row                                             *)
(* --------------------------------------------------------------------- *)

Lemma tag_columnsE (seen : seq string) (df : seq ScanRecord) :
  let entry :=
    [seq ~~ d | d <- duplicated_from seen [seq customer_no r | r <- df]] in
  let exit := [seq location r == "checkout"%string | r <- df] in
  [seq Annotated q.1.1.1 q.1.1.2 q.1.2 q.2
  | q <- zip (zip (zip df entry) exit)
             (loc_assign exit (-1) (loc_assign entry 1 (nseq (size df) 0)))] =
  tag_from seen df.
Proof.
elim: df seen => [|r df IH] seen //=.
by rewrite -IH.
Qed.

(* The rows of the docstring of add_entry_exit. *)
Example add_entry_exit_docstring :
  add_entry_exit (kind := stable_kind)
    [:: Scan 0 183 "1" "dairy"; Scan 8 185 "1" "checkout";
        Scan 5 184 "6" "spices"; Scan 10 185 "6" "dairy"] =
  [:: Annotated (Scan 0 183 "1" "dairy") true false 1;
      Annotated (Scan 5 184 "6" "spices") true false 1;
      Annotated (Scan 8 185 "1" "checkout") false true (-1);
      Annotated (Scan 10 185 "6" "dairy") false false 0].
Proof. by []. Qed.

Lemma add_entry_exitE {kind : sort_kind} (df : seq ScanRecord) :
  add_entry_exit df = tag_from [::] (sort_values timestamp df).
Proof. exact: tag_columnsE. Qed.

Lemma scan_tag_from (seen : seq string) (df : seq ScanRecord) :
  [seq scan r | r <- tag_from seen df] = df.
Proof. by elim: df seen => [|r df IH] seen //=; rewrite IH. Qed.

Lemma tag_from_cells (seen : seq string) (df : seq ScanRecord) :
  all (fun r : AnnotatedRecord =>
         (exit r == is_checkout r) &&
         (customer_count_change r ==
            if exit r then -1 else if entry r then 1 else 0))
      (tag_from seen df).
Proof. by elim: df seen => [|r df IH] seen //=; rewrite !eqxx IH. Qed.

Lemma entry_rows_seen (seen : seq string) (df : seq ScanRecord) (c : string) :
  c \in seen ->
  [seq r : AnnotatedRecord <- tag_from seen df
  | entry r && (customer_no r == c)] = [::].
Proof.
elim: df seen => [|r df IH] seen c_seen //=.
rewrite IH ?in_cons ?c_seen ?orbT //.
by case: eqP => [->|_]; rewrite ?c_seen ?andbF.
Qed.

Lemma entry_rows_fresh (seen : seq string) (df : seq ScanRecord) (c : string) :
  c \notin seen ->
  [seq r : AnnotatedRecord <- tag_from seen df
  | entry r && (customer_no r == c)] =
  [seq entry_row r | r <- take 1 [seq r <- df | customer_no r == c]].
Proof.
elim: df seen => [|r df IH] seen c_fresh //=.
case: eqP => [r_c|/eqP r_c].
  rewrite r_c c_fresh /= entry_rows_seen ?mem_head // take0.
  by rewrite /tag_row /entry_row r_c c_fresh.
by rewrite andbF IH // in_cons negb_or c_fresh andbT eq_sym.
Qed.

(* --------------------------------------------------------------------- *)
(* Entry/exit tagging                                                     *)
(* --------------------------------------------------------------------- *)

Lemma customer_head_tag_from (seen : seq string) (df : seq ScanRecord)
    (c : string) :
  c \notin seen ->
  ohead [seq r : AnnotatedRecord <- tag_from seen df | customer_no r == c] =
  omap entry_row (ohead [seq r <- df | customer_no r == c]).
Proof.
elim: df seen => [|r df IH] seen c_fresh //=.
case: eqP => [r_c|/eqP r_c] /=.
  by rewrite /tag_row /entry_row r_c c_fresh.
by rewrite IH // in_cons negb_or c_fresh andbT eq_sym.
Qed.

(** C1 (as amended): after add_entry_exit every customer of the input
    table has exactly one row with entry = true, and that row has the least
    timestamp among the customer's rows; among several rows of the customer
    with that timestamp it is the one that the sort puts first, whatever
    their order in the input table. *)
Theorem add_entry_exit_one_entry_per_customer {kind : sort_kind}
    (df : seq ScanRecord) (c : string) :
  c \in [seq customer_no r | r <- df] ->
  exists r0 : AnnotatedRecord,
    [/\ [seq r : AnnotatedRecord <- add_entry_exit df
        | entry r && (customer_no r == c)] = [:: r0],
        forall r : AnnotatedRecord,
          r \in add_entry_exit df -> customer_no r = c ->
          (timestamp r0 <= timestamp r)%N
      & ohead [seq r : AnnotatedRecord <- add_entry_exit df
              | customer_no r == c] = Some r0].
Proof.
move=> c_df; rewrite add_entry_exitE.
set s := sort_values timestamp df.
have: has (fun r => customer_no r == c) s.
  case/mapP: c_df => r r_df ->; apply/hasP; exists r => //.
  by rewrite mem_sort_values.
rewrite has_filter; case fs: [seq r <- s | _] => [|r1 f] // _.
have r1_c : customer_no r1 = c.
  have: r1 \in [seq r <- s | customer_no r == c] by rewrite fs mem_head.
  by rewrite mem_filter => /andP[/eqP].
have r1_min : all (fun r => timestamp r1 <= timestamp r)%N f.
  apply: sorted_head_min; rewrite -fs.
  apply: sorted_filter; first exact: by_timestamp_trans.
  exact: sort_values_sorted.
exists (entry_row r1); split.
- by rewrite entry_rows_fresh // fs /= take0.
- move=> r r_out r_c.
  have: scan r \in r1 :: f.
    rewrite -fs mem_filter r_c eqxx /= -(scan_tag_from [::] s).
    exact: map_f.
  rewrite in_cons => /orP[/eqP -> //=|r_f].
  exact: (allP r1_min).
- by rewrite customer_head_tag_from // fs.
Qed.

Lemma add_entry_exit_one_entry_witness :
  exists r0 : AnnotatedRecord,
    [/\ [seq r : AnnotatedRecord <-
           add_entry_exit (kind := stable_kind)
             [:: Scan 0 185 "6" "dairy"; Scan 1 184 "6" "spices";
                 Scan 2 184 "6" "fruit"; Scan 3 183 "1" "dairy"]
        | entry r && (customer_no r == "6"%string)] = [:: r0],
        forall r : AnnotatedRecord,
          r \in add_entry_exit (kind := stable_kind)
                  [:: Scan 0 185 "6" "dairy"; Scan 1 184 "6" "spices";
                      Scan 2 184 "6" "fruit"; Scan 3 183 "1" "dairy"] ->
          customer_no r = "6"%string -> (timestamp r0 <= timestamp r)%N
      & ohead [seq r : AnnotatedRecord <-
                 add_entry_exit (kind := stable_kind)
                   [:: Scan 0 185 "6" "dairy"; Scan 1 184 "6" "spices";
                       Scan 2 184 "6" "fruit"; Scan 3 183 "1" "dairy"]
              | customer_no r == "6"%string] = Some r0].
Proof. by apply: add_entry_exit_one_entry_per_customer. Defined.

(* Seventeen rows with one timestamp, customer A at the labels 1 and 14:
   a sort that leaves equal timestamps in another order than they had (as
   the default kind of sort_values may) flags as A's entry the row
   labelled 14, which is not A's first row in the table. *)
Lemma add_entry_exit_tie_order :
  [seq row_label r
  | r : AnnotatedRecord <-
      add_entry_exit (kind := reversing_kind) equal_timestamps_frame
  & entry r && (customer_no r == "A"%string)] = [:: 14%N] /\
  ohead [seq row_label r
        | r <- equal_timestamps_frame & customer_no r == "A"%string] =
  Some 1%N.
Proof. by vm_compute. Qed.

(** C9: in the output of add_entry_exit a row that is both the first
    appearance of its customer and at the checkout (entry = true and
    exit = true) has customer_count_change = -1: the exit assignment
    overrides the entry assignment. *)
Theorem add_entry_exit_exit_overrides_entry {kind : sort_kind}
    (df : seq ScanRecord) (r : AnnotatedRecord) :
  r \in add_entry_exit df -> entry r -> exit r ->
  customer_count_change r = -1.
Proof.
rewrite add_entry_exitE => /(allP (tag_from_cells _ _)) /andP[_ /eqP ->] _.
by move=> ->.
Qed.

Lemma add_entry_exit_exit_overrides_entry_witness :
  customer_count_change
    (Annotated (Scan 0 183 "1" "checkout") true true (-1)) = -1.
Proof.
by apply: (@add_entry_exit_exit_overrides_entry stable_kind
             [:: Scan 0 183 "1" "checkout"; Scan 1 184 "1" "dairy"]).
Defined.

(* --------------------------------------------------------------------- *)
(* filter_non_exiting_customers, row by row                               *)
(* --------------------------------------------------------------------- *)

Section Duplicated.

Variable T : eqType.

Lemma size_duplicated_from (seen s : seq T) :
  size (duplicated_from seen s) = size s.
Proof. by elim: s seen => [|x s IH] seen //=; rewrite IH. Qed.

Lemma duplicated_from_cat (seen s1 s2 : seq T) :
  duplicated_from seen (s1 ++ s2) =
  duplicated_from seen s1 ++ duplicated_from (rev s1 ++ seen) s2.
Proof.
elim: s1 seen => [|x s1 IH] seen //=.
by rewrite IH rev_cons cat_rcons.
Qed.

(* Looking for duplicates from the bottom up marks the values that occur
   again further down. *)
Lemma duplicated_rev (s : seq T) : rev (duplicated (rev s)) = recurs s.
Proof.
rewrite /duplicated; elim: s => [|x s IH] //=.
rewrite rev_cons -cats1 duplicated_from_cat /= cats0 revK.
by rewrite rev_cat /= IH.
Qed.

End Duplicated.

Section Alignment.

Lemma rev_fixed_uniq (s : seq nat) : uniq s -> rev s = s -> (size s <= 1)%N.
Proof.
case: s => [|x [|y s]] //= /andP[x_s _] rev_s.
have: last x (rev [:: x, y & s]) = last x [:: x, y & s] by rewrite rev_s.
rewrite 2!rev_cons last_rcons /= => x_last.
by move: x_s; rewrite x_last mem_last.
Qed.

Lemma lookup_label_uniq (s : series bool) (p : nat * bool) :
  uniq (unzip1 s) -> p \in s -> lookup_label false s p.1 = p.2.
Proof.
rewrite /lookup_label; elim: s => [|q s IH] //= /andP[q_s uniq_s].
rewrite in_cons => /orP[/eqP ->|p_s]; first by rewrite eqxx.
case: eqP => [q_p|_] /=; last exact: IH.
by move: q_s; rewrite q_p map_f.
Qed.

(* Assigning to a frame a column computed on the frame read bottom up puts
   every value back on its own row. *)
Lemma setitem_align_rev (ls : seq nat) (vs : seq bool) :
  uniq ls -> size vs = size ls ->
  setitem_align (zip (rev ls) (rev vs)) ls = Ok vs.
Proof.
move=> uniq_ls size_vs; rewrite /setitem_align.
rewrite unzip1_zip ?size_rev ?size_vs // unzip2_zip ?size_rev ?size_vs //.
case: eqP => [rev_ls|_].
  congr Ok; have := rev_fixed_uniq uniq_ls rev_ls.
  by rewrite -size_vs; case: (vs) => [|v [|w s]].
rewrite rev_uniq uniq_ls /=; congr Ok.
rewrite -[in RHS](unzip2_zip (s := ls) (t := vs)) ?size_vs //.
rewrite -[X in [seq _ | l <- X]](unzip1_zip (s := ls) (t := vs)) ?size_vs //.
rewrite /unzip1 /unzip2 -map_comp; apply/eq_in_map => p p_zip /=.
apply: lookup_label_uniq; last by rewrite -rev_zip // mem_rev.
by rewrite unzip1_zip ?size_rev ?size_vs // rev_uniq.
Qed.

End Alignment.

Section ResetIndex.

Lemma reset_indexE (df : seq AnnotatedRecord) :
  reset_index df = relabel_from 0 df.
Proof.
rewrite /reset_index; elim: df 0%N => [|r df IH] n //=.
by rewrite IH.
Qed.

Lemma labels_relabel_from (n : nat) (df : seq AnnotatedRecord) :
  labels (relabel_from n df) = iota n (size df).
Proof. by elim: df n => [|r df IH] n //=; rewrite IH. Qed.

Lemma size_relabel_from (n : nat) (df : seq AnnotatedRecord) :
  size (relabel_from n df) = size df.
Proof. by elim: df n => [|r df IH] n //=; rewrite IH. Qed.

(* Whatever is computed from the cells, not from the labels, is the same
   before and after reset_index. *)
Lemma relabel_filter_map (A : Type) (f : AnnotatedRecord -> A)
    (p : pred AnnotatedRecord) (n : nat) (df : seq AnnotatedRecord) :
  (forall i r, f (set_label i r) = f r) ->
  (forall i r, p (set_label i r) = p r) ->
  [seq f r | r <- relabel_from n df & p r] = [seq f r | r <- df & p r].
Proof.
move=> f_cells p_cells; elim: df n => [|r df IH] n //=.
by rewrite p_cells; case: (p r); rewrite /= ?f_cells IH.
Qed.

Lemma relabel_map (A : Type) (f : AnnotatedRecord -> A) (n : nat)
    (df : seq AnnotatedRecord) :
  (forall i r, f (set_label i r) = f r) ->
  [seq f r | r <- relabel_from n df] = [seq f r | r <- df].
Proof.
move=> f_cells.
by have := relabel_filter_map n df f_cells (fun _ _ => erefl true);
   rewrite !filter_predT.
Qed.

Lemma relabel_from_fixed (n : nat) (df : seq AnnotatedRecord) :
  labels df = iota n (size df) -> relabel_from n df = df.
Proof.
elim: df n => [|[[l t c x] e o d] df IH] n //= [-> /IH ->].
by [].
Qed.

Lemma reset_index_idem (df : seq AnnotatedRecord) :
  reset_index (reset_index df) = reset_index df.
Proof.
rewrite !reset_indexE; apply: relabel_from_fixed.
by rewrite labels_relabel_from size_relabel_from.
Qed.

Lemma reaches_checkout_relabel (n : nat) (df : seq AnnotatedRecord) :
  reaches_checkout (relabel_from n df) =1 reaches_checkout df.
Proof. by move=> c; rewrite /reaches_checkout relabel_filter_map. Qed.

End ResetIndex.

Section InvalidCustomers.

Lemma invalid_customersE (df : seq AnnotatedRecord) :
  mask [seq lr.1 && ~~ exit lr.2
       | lr <- zip [seq ~~ d | d <- recurs (customers df)] df]
       (customers df) = invalid_from df.
Proof. by elim: df => [|r df IH] //=; rewrite IH; case: ifP. Qed.

Lemma customer_rows_nil (df : seq AnnotatedRecord) (c : string) :
  c \notin customers df ->
  [seq r : AnnotatedRecord <- df | customer_no r == c] = [::].
Proof.
move=> c_df; apply/eqP; rewrite -size_eq0 size_filter -leqn0 leqNgt -has_count.
by apply: contra c_df => /hasP[r r_df /eqP <-]; exact: map_f.
Qed.

Lemma reaches_checkout_cons (r : AnnotatedRecord) (df : seq AnnotatedRecord)
    (c : string) :
  reaches_checkout (r :: df) c =
  if c \in customers df then reaches_checkout df c
  else (customer_no r == c) && exit r.
Proof.
rewrite /reaches_checkout /=.
have [/mapP[r' r'_df c_r']|c_df] := boolP (c \in customers df).
  have: r' \in [seq x : AnnotatedRecord <- df | customer_no x == c].
    by rewrite mem_filter r'_df c_r' eqxx.
  by case: [seq x <- df | _] => [|y s] // _; case: ifP.
by rewrite customer_rows_nil //; case: ifP.
Qed.

(* The customers held invalid are those whose last row is not an exit. *)
Lemma mem_invalid_from (df : seq AnnotatedRecord) (c : string) :
  c \in invalid_from df = (c \in customers df) && ~~ reaches_checkout df c.
Proof.
elim: df => [|r df IH] //=.
rewrite reaches_checkout_cons in_cons.
have [c_df|c_df] := boolP (c \in customers df).
  rewrite orbT /= -[RHS]andTb -c_df -IH.
  case: ifP => // /andP[r_df _]; rewrite in_cons.
  by case: eqP r_df => // <-; rewrite c_df.
rewrite orbF eq_sym.
have c_inv : c \in invalid_from df = false by rewrite IH (negbTE c_df).
case: eqP => [->|/eqP r_c] /=.
  by rewrite c_df /=; case: (exit r); rewrite /= ?in_cons ?eqxx ?c_inv.
by case: ifP => _; rewrite ?in_cons ?c_inv ?orbF // eq_sym (negbTE r_c).
Qed.

End InvalidCustomers.

Lemma filter_non_exiting_customersE {kind : sort_kind}
    (df : seq AnnotatedRecord) :
  uniq (labels df) ->
  let s := sort_values annotated_timestamp df in
  filter_non_exiting_customers df =
  Ok (reset_index
        [seq r : AnnotatedRecord <- s | reaches_checkout s (customer_no r)]).
Proof.
move=> uniq_df s; rewrite /filter_non_exiting_customers -/s.
have uniq_s : uniq (labels s).
  by rewrite (perm_uniq (perm_map _ (perm_sort_values _ _))).
have size_s : size [seq ~~ d | d <- recurs (customers s)] = size (labels s).
  by rewrite -duplicated_rev !size_map size_rev size_duplicated_from size_rev
             size_map.
rewrite !map_rev -[X in zip _ X]revK -(map_rev negb) duplicated_rev.
rewrite setitem_align_rev //=.
rewrite invalid_customersE; congr (Ok (reset_index _)).
apply: eq_in_filter => r r_s.
by rewrite mem_invalid_from negb_and negbK (map_f _ r_s).
Qed.

Section ExitFilter.

Implicit Types (df : seq AnnotatedRecord) (c : string).

Lemma sorted_last_max (d r : AnnotatedRecord) df :
  sorted (by_timestamp annotated_timestamp) df -> r \in df ->
  (timestamp r <= timestamp (last d df))%N.
Proof.
elim: df d => [|x df IH] d //= x_df.
have x_min := order_path_min (@by_timestamp_trans _ _) x_df.
rewrite in_cons => /orP[/eqP ->|r_df]; last exact: IH (path_sorted x_df) r_df.
have := mem_last x df; rewrite in_cons => /orP[/eqP -> //|].
by move/(allP x_min).
Qed.

Lemma sorted_relabel_from (n : nat) df :
  sorted (by_timestamp annotated_timestamp) (relabel_from n df) =
  sorted (by_timestamp annotated_timestamp) df.
Proof.
have E s : sorted (by_timestamp annotated_timestamp) s =
           sorted leq [seq timestamp r | r : AnnotatedRecord <- s].
  by rewrite sorted_map.
by rewrite !E relabel_map.
Qed.

(* Filtering keeps the rows of a customer all together or not at all. *)
Lemma customer_rows_kept df c :
  [seq r : AnnotatedRecord
  <- [seq r : AnnotatedRecord <- df | reaches_checkout df (customer_no r)]
  | customer_no r == c] =
  if reaches_checkout df c then
    [seq r : AnnotatedRecord <- df | customer_no r == c]
  else [::].
Proof.
rewrite -filter_predI; case: ifP => c_out.
  by apply: eq_filter => r /=; case: eqP => [->|//]; rewrite c_out.
rewrite -(filter_pred0 df).
by apply: eq_filter => r /=; case: eqP => [->|//]; rewrite c_out.
Qed.

Lemma reaches_checkout_kept df c :
  reaches_checkout
    [seq r : AnnotatedRecord <- df | reaches_checkout df (customer_no r)] c =
  reaches_checkout df c.
Proof.
rewrite {1}/reaches_checkout customer_rows_kept.
by case c_out: (reaches_checkout df c) => //; rewrite -c_out.
Qed.

Lemma kept_fixed df :
  let kept :=
    [seq r : AnnotatedRecord <- df | reaches_checkout df (customer_no r)] in
  [seq r : AnnotatedRecord <- kept | reaches_checkout kept (customer_no r)] =
  kept.
Proof.
move=> kept; apply/all_filterP/allP => r.
by rewrite reaches_checkout_kept mem_filter => /andP[].
Qed.

End ExitFilter.

(* Two ascending orders of the same timestamps are the same column. *)
Lemma sorted_timestamps_eq (s df : seq AnnotatedRecord) :
  perm_eq s df -> sorted leq (timestamps s) -> sorted leq (timestamps df) ->
  timestamps s = timestamps df.
Proof.
move=> s_df sorted_s sorted_df.
by apply: (sorted_eq leq_trans anti_leq) => //; apply: perm_map.
Qed.

(** C2 (as amended): on a table whose rows are labelled apart,
    filter_non_exiting_customers sorts the table again by timestamp (which
    may exchange rows of equal timestamp, also in a table that is sorted
    already; it leaves the timestamp column of a sorted table as it is, and
    the whole table when, besides, no two rows have the same timestamp);
    it removes every row of each customer whose last row in the table so
    sorted has exit = false, that row having the greatest timestamp among
    the customer's rows, and keeps every row of all other customers, in
    the order of the table so sorted; the labels of the result are
    0, 1, 2, ... *)
Theorem filter_non_exiting_customers_spec {kind : sort_kind}
    (df : seq AnnotatedRecord) :
  uniq (labels df) ->
  let s := sort_values annotated_timestamp df in
  exists out : seq AnnotatedRecord,
    [/\ filter_non_exiting_customers df = Ok out,
        [/\ perm_eq s df, sorted leq (timestamps s),
            sorted leq (timestamps df) -> timestamps s = timestamps df
          & sorted leq (timestamps df) -> uniq (timestamps df) -> s = df],
        [seq cells r | r <- out] =
        [seq cells r
        | r : AnnotatedRecord <- s & reaches_checkout s (customer_no r)],
        labels out = iota 0 (size out)
      & forall r : AnnotatedRecord, r \in s ->
        let l :=
          last r [seq x : AnnotatedRecord <- s
                 | customer_no x == customer_no r] in
        (timestamp r <= timestamp l)%N /\
        reaches_checkout s (customer_no r) = exit l].
Proof.
move=> uniq_df s.
have perm_s : perm_eq s df by exact: perm_sort_values.
have sorted_s : sorted (by_timestamp annotated_timestamp) s.
  exact: sort_values_sorted.
have sorted_ts : sorted leq (timestamps s) by rewrite sorted_map.
exists (reset_index [seq r : AnnotatedRecord <- s
                    | reaches_checkout s (customer_no r)]).
split.
- by rewrite filter_non_exiting_customersE.
- split=> //; first exact: sorted_timestamps_eq.
  rewrite sorted_map => sorted_df uniq_ts.
  exact: (sorted_perm_uniq_eq (ts := annotated_timestamp)).
- by rewrite reset_indexE relabel_map.
- by rewrite reset_indexE labels_relabel_from size_relabel_from.
- move=> r r_s l; split.
    apply: sorted_last_max; last by rewrite mem_filter eqxx.
    exact: sorted_filter (@by_timestamp_trans _ _) _ _ sorted_s.
  rewrite /reaches_checkout /l.
  have: r \in [seq x : AnnotatedRecord <- s | customer_no x == customer_no r].
    by rewrite mem_filter eqxx.
  by case: [seq x <- s | _] => [|y t] // _; rewrite /= last_map.
Qed.

Lemma filter_non_exiting_customers_witness :
  exists out : seq AnnotatedRecord,
    [/\ filter_non_exiting_customers (kind := stable_kind)
          (add_entry_exit (kind := stable_kind)
             [:: Scan 0 1 "A" "dairy"; Scan 1 2 "B" "fruit";
                 Scan 2 2 "A" "checkout"; Scan 3 3 "B" "spices"]) = Ok out,
        [seq cells r | r <- out] =
        [:: (1%N, "A", "dairy", true, false, 1);
            (2%N, "A", "checkout", false, true, -1)]%string
      & labels out = [:: 0; 1]%N].
Proof.
have [] := @filter_non_exiting_customers_spec stable_kind
             (add_entry_exit (kind := stable_kind)
                [:: Scan 0 1 "A" "dairy"; Scan 1 2 "B" "fruit";
                    Scan 2 2 "A" "checkout"; Scan 3 3 "B" "spices"]).
  by [].
by move=> out [out_ok _ out_cells out_labels _]; exists out; split=> //;
   rewrite out_labels -(size_map cells) out_cells.
Defined.

(* On a tagged table of seventeen rows with one timestamp, every customer
   at the checkout, a sort that leaves equal timestamps in another order
   than they had returns all the rows, but not in the order they had. *)
Lemma filter_non_exiting_customers_tie_order :
  if filter_non_exiting_customers (kind := reversing_kind)
       equal_timestamps_tagged is Ok out
  then [seq cells r | r <- out] !=
       [seq cells r
       | r : AnnotatedRecord <- equal_timestamps_tagged
       & reaches_checkout equal_timestamps_tagged (customer_no r)]
  else false.
Proof. by vm_compute. Qed.

(* What add_entry_exit returns is sorted by timestamp and keeps the labels
   of the input. *)
Lemma add_entry_exit_sorted {kind : sort_kind} (df : seq ScanRecord) :
  sorted (by_timestamp annotated_timestamp) (add_entry_exit df).
Proof.
rewrite add_entry_exitE.
have -> : sorted (by_timestamp annotated_timestamp) =1
          fun t => sorted (by_timestamp timestamp) [seq scan r | r <- t].
  by move=> t; rewrite sorted_map.
by rewrite scan_tag_from; exact: sort_values_sorted.
Qed.

Lemma add_entry_exit_labels {kind : sort_kind} (df : seq ScanRecord) :
  uniq [seq row_label r | r <- df] -> uniq (labels (add_entry_exit df)).
Proof.
rewrite add_entry_exitE => uniq_df.
rewrite (map_comp row_label scan) scan_tag_from.
by rewrite (perm_uniq (perm_map _ (perm_sort_values _ _))).
Qed.

(** C7 (as amended): on a table whose rows are labelled apart and in which
    no customer has two rows with the same timestamp,
    filter_non_exiting_customers succeeds, and applied to its own result it
    returns the same rows, with the same labels and the same timestamp
    column, rows of equal timestamp possibly in another order; it returns
    its own result unchanged when no two rows of the table have the same
    timestamp. *)
Theorem filter_non_exiting_customers_idempotent {kind : sort_kind}
    (df : seq AnnotatedRecord) :
  uniq (labels df) -> uniq (visits df) ->
  exists out1 out2 : seq AnnotatedRecord,
    [/\ filter_non_exiting_customers df = Ok out1,
        filter_non_exiting_customers out1 = Ok out2,
        perm_eq [seq cells r | r <- out2] [seq cells r | r <- out1],
        labels out2 = labels out1 /\ timestamps out2 = timestamps out1
      & uniq (timestamps df) -> out2 = out1].
Proof.
move=> uniq_df visits_df; rewrite filter_non_exiting_customersE //.
set s1 := sort_values _ df.
set kept := [seq r <- s1 | _]; set out1 := reset_index kept.
have sorted_kept : sorted (by_timestamp annotated_timestamp) kept.
  apply: sorted_filter; first exact: by_timestamp_trans.
  exact: sort_values_sorted.
have uniq_out : uniq (labels out1).
  by rewrite /out1 reset_indexE labels_relabel_from iota_uniq.
have sorted_out : sorted (by_timestamp annotated_timestamp) out1.
  by rewrite /out1 reset_indexE sorted_relabel_from.
have kept_s1 (A : eqType) (f : AnnotatedRecord -> A) :
    (forall i r, f (set_label i r) = f r) ->
    uniq [seq f r | r <- df] -> uniq [seq f r | r <- out1].
  move=> f_cells; rewrite /out1 reset_indexE relabel_map //.
  rewrite -(perm_uniq (perm_map f (perm_sort_values annotated_timestamp df))).
  exact: subseq_uniq (map_subseq _ (filter_subseq _ _)).
have visits_out : uniq (visits out1) by exact: kept_s1.
exists out1; rewrite (filter_non_exiting_customersE uniq_out).
set s2 := sort_values _ out1.
have perm_s2 : perm_eq s2 out1 by exact: perm_sort_values.
have sorted_s2 : sorted (by_timestamp annotated_timestamp) s2.
  exact: sort_values_sorted.
have all_kept : [seq r : AnnotatedRecord <- s2
                | reaches_checkout s2 (customer_no r)] = s2.
  apply/all_filterP/allP => r; rewrite (perm_mem perm_s2) => r_out.
  rewrite /reaches_checkout.
  rewrite (customer_rows_sort_values
             (customer := fun x : AnnotatedRecord => customer_no x)) //.
  rewrite -/(reaches_checkout out1 _).
  rewrite /out1 reset_indexE reaches_checkout_relabel.
  have: customer_no r \in customers out1 by exact: map_f.
  rewrite /out1 reset_indexE relabel_map // => /mapP[r' r'_kept ->].
  exact: (allP (introT all_filterP (kept_fixed s1)) r' r'_kept).
rewrite all_kept; exists (reset_index s2); split=> //.
- by rewrite reset_indexE relabel_map //; exact: perm_map.
- split.
    rewrite reset_indexE labels_relabel_from.
    have -> : size s2 = size kept.
      by rewrite (perm_size perm_s2) /out1 reset_indexE size_relabel_from.
    by rewrite /out1 reset_indexE labels_relabel_from.
  rewrite reset_indexE relabel_map //.
  by apply: sorted_timestamps_eq => //; rewrite sorted_map.
- move=> distinct_df; have -> : s2 = out1.
    apply: (sorted_perm_uniq_eq (ts := annotated_timestamp)) => //.
    exact: (kept_s1 _ annotated_timestamp).
  exact: reset_index_idem.
Qed.

Lemma filter_non_exiting_customers_idempotent_witness :
  exists out1 out2 : seq AnnotatedRecord,
    [/\ filter_non_exiting_customers (kind := stable_kind)
          (add_entry_exit (kind := stable_kind)
             [:: Scan 0 3 "B" "spices"; Scan 1 2 "B" "fruit";
                 Scan 2 2 "A" "checkout"; Scan 3 1 "A" "dairy"]) = Ok out1,
        filter_non_exiting_customers (kind := stable_kind) out1 = Ok out2,
        perm_eq [seq cells r | r <- out2] [seq cells r | r <- out1],
        labels out2 = labels out1 /\ timestamps out2 = timestamps out1
      & uniq [:: 1; 2; 2; 3]%N -> out2 = out1].
Proof.
by apply: (@filter_non_exiting_customers_idempotent stable_kind
             (add_entry_exit (kind := stable_kind)
                [:: Scan 0 3 "B" "spices"; Scan 1 2 "B" "fruit";
                    Scan 2 2 "A" "checkout"; Scan 3 1 "A" "dairy"])).
Defined.

(* On a tagged table of seventeen rows with one timestamp, every customer
   at the checkout, a sort that leaves equal timestamps in another order
   than they had makes the second application return another frame than
   the first. *)
Lemma filter_non_exiting_customers_twice :
  if filter_non_exiting_customers (kind := reversing_kind)
       equal_timestamps_tagged is Ok out1
  then if filter_non_exiting_customers (kind := reversing_kind) out1
         is Ok out2
       then out2 != out1 else false
  else false.
Proof. by vm_compute. Qed.

(* Why no customer may have two rows of one timestamp: with such a sort, a
   customer whose two rows of one timestamp are kept by the first
   application is removed by the second. *)
Example filter_non_exiting_customers_second_removes :
  let df := [:: Annotated (Scan 0 5 "A" "checkout") true true (-1);
                Annotated (Scan 1 5 "A" "dairy") false false 0] in
  if filter_non_exiting_customers (kind := reversing_kind) df is Ok out1
  then if filter_non_exiting_customers (kind := reversing_kind) out1
         is Ok out2
       then (size out1 == 2%N) && (size out2 == 0%N) else false
  else false.
Proof. by vm_compute. Qed.

(* The rows of one customer after tagging: the rows it had, each with
   exit = is_checkout. *)
Lemma customer_rows_tag_from (A : Type) (g : ScanRecord -> bool -> A)
    (seen : seq string) (df : seq ScanRecord) (c : string) :
  [seq g (scan x) (exit x)
  | x : AnnotatedRecord <- tag_from seen df & customer_no x == c] =
  [seq g r (is_checkout r) | r <- df & customer_no r == c].
Proof.
elim: df seen => [|r df IH] seen //=.
by case: ifP => _ /=; rewrite IH.
Qed.

(** C10: a customer whose only row is at the checkout is retained by
    filter_non_exiting_customers: after tagging and filtering, the
    customer still has that one row, with exit = true. *)
Theorem single_checkout_row_retained {kind : sort_kind}
    (df : seq ScanRecord) (c : string) (r : ScanRecord) :
  uniq [seq row_label x | x <- df] ->
  [seq x <- df | customer_no x == c] = [:: r] ->
  location r = "checkout"%string ->
  exists out : seq AnnotatedRecord,
    filter_non_exiting_customers (add_entry_exit df) = Ok out /\
    [seq (timestamp x, location x, exit x)
    | x : AnnotatedRecord <- out & customer_no x == c] =
    [:: (timestamp r, "checkout"%string, true)].
Proof.
move=> uniq_df c_rows r_checkout.
rewrite (filter_non_exiting_customersE (add_entry_exit_labels uniq_df)).
set t := add_entry_exit df; set s := sort_values _ t.
have [a t_c [scan_a exit_a]] :
    exists2 a : AnnotatedRecord,
      [seq x : AnnotatedRecord <- t | customer_no x == c] = [:: a]
      & scan a = r /\ exit a.
  have := customer_rows_tag_from (fun x e => (x, e)) [::]
            (sort_values (kind := kind) timestamp df) c.
  have -> : [seq x <- sort_values timestamp df | customer_no x == c] = [:: r].
    apply: perm_small_eq => //.
    by rewrite -c_rows; exact: perm_filter_sort_values.
  rewrite -add_entry_exitE -/t /= /is_checkout r_checkout eqxx.
  by case: [seq x <- t | _] => [|a [|b l]] //= [scan_a exit_a]; exists a.
have s_c : [seq x : AnnotatedRecord <- s | customer_no x == c] = [:: a].
  apply: perm_small_eq => //.
  by rewrite -t_c; exact: perm_filter_sort_values.
have c_out : reaches_checkout s c by rewrite /reaches_checkout s_c.
eexists; split; first by [].
rewrite reset_indexE relabel_filter_map // customer_rows_kept c_out s_c /=.
by rewrite exit_a scan_a r_checkout.
Qed.

Lemma single_checkout_row_retained_witness :
  exists out : seq AnnotatedRecord,
    filter_non_exiting_customers (kind := stable_kind)
      (add_entry_exit (kind := stable_kind)
         [:: Scan 0 1 "A" "dairy"; Scan 1 2 "B" "checkout";
             Scan 2 3 "A" "fruit"]) = Ok out /\
    [seq (timestamp x, location x, exit x)
    | x : AnnotatedRecord <- out & customer_no x == "B"%string] =
    [:: (2%N, "checkout"%string, true)].
Proof.
by apply: (@single_checkout_row_retained stable_kind _ _
             (Scan 1 2 "B" "checkout")).
Defined.

(* --------------------------------------------------------------------- *)
(* compute_customer_total                                                 *)
(* --------------------------------------------------------------------- *)

Section RunningTotal.

Implicit Types (df : seq AnnotatedRecord) (t : nat) (a d : int).

Notation changes_until t df :=
  [seq customer_count_change r
  | r : AnnotatedRecord <- df & (timestamp r <= t)%N].

Lemma sorted_head_le (r : AnnotatedRecord) df t :
  sorted (by_timestamp annotated_timestamp) (r :: df) ->
  t \in timestamps df -> (timestamp r <= t)%N.
Proof.
move=> sorted_df /mapP[x x_df ->].
exact: (allP (sorted_head_min sorted_df)).
Qed.

Lemma changes_until_head (r : AnnotatedRecord) df :
  sorted (by_timestamp annotated_timestamp) (r :: df) ->
  timestamp r \notin timestamps df ->
  changes_until (timestamp r) df = [::].
Proof.
move=> sorted_df r_df; have r_min := sorted_head_min sorted_df.
rewrite (@eq_in_filter _ _ pred0) ?filter_pred0 // => x x_df /=.
apply/negbTE; apply: contra r_df => x_r.
have -> : timestamp r = timestamp x.
  by apply/eqP; rewrite eqn_leq x_r (allP r_min).
exact: map_f.
Qed.

(* The last running sum among the rows stamped t is the sum of the changes
   of all rows up to t. *)
Lemma last_cumsum_from a d df t :
  sorted (by_timestamp annotated_timestamp) df ->
  last d [seq p.2
         | p <- zip (timestamps df)
                    (scanl +%R a [seq customer_count_change r | r <- df])
         & p.1 == t] =
  if t \in timestamps df then a + sum_of (changes_until t df) else d.
Proof.
elim: df a d => [|r df IH] a d //= sorted_df.
have sorted_tl := path_sorted sorted_df.
rewrite in_cons eq_sym; case: eqP => [t_r|_] /=.
  rewrite IH // t_r leqnn /= addrA.
  case: ifP => // /negbT r_df.
  by rewrite changes_until_head //= addr0.
rewrite IH //; case: ifP => // t_df.
by rewrite (sorted_head_le sorted_df t_df) /= addrA.
Qed.

End RunningTotal.

(** C3: on a tagged table (sorted by timestamp) compute_customer_total
    returns one row per distinct timestamp T, in ascending order, whose
    customer_total is the sum of customer_count_change over all rows with
    timestamp <= T. *)
Theorem compute_customer_total_spec (df : seq AnnotatedRecord) :
  sorted (by_timestamp annotated_timestamp) df ->
  compute_customer_total df =
  [seq (T, sum_of [seq customer_count_change r
                  | r : AnnotatedRecord <- df & (timestamp r <= T)%N])
  | T <- sort leq (undup [seq timestamp r | r : AnnotatedRecord <- df])].
Proof.
move=> sorted_df; rewrite /compute_customer_total /cumsum.
apply/eq_in_map => T; rewrite mem_sort mem_undup => T_df.
by rewrite last_cumsum_from // T_df add0r.
Qed.

Lemma compute_customer_total_witness :
  compute_customer_total
    (add_entry_exit (kind := stable_kind)
       [:: Scan 0 1 "A" "dairy"; Scan 1 1 "B" "fruit";
           Scan 2 2 "A" "checkout"; Scan 3 3 "C" "spices";
           Scan 4 3 "B" "checkout"]) =
  [:: (1%N, 2%:Z); (2%N, 1%:Z); (3%N, 1%:Z)].
Proof. by rewrite compute_customer_total_spec. Defined.

(* --------------------------------------------------------------------- *)
(* compute_customer_time_in_store                                         *)
(* --------------------------------------------------------------------- *)

Section TimeInStore.

Implicit Types (df rows : seq AnnotatedRecord) (c : string).

Lemma earliest_sorted (r : AnnotatedRecord) rows :
  sorted (by_timestamp annotated_timestamp) (r :: rows) ->
  earliest (r :: rows) = timestamp r.
Proof.
move=> sorted_rows; have := sorted_head_min sorted_rows.
rewrite /earliest; elim: rows {sorted_rows} => [|x rows IH] //=.
move=> /andP[r_x r_min].
by rewrite IH //; apply/minn_idPr.
Qed.

Lemma earliest_filter (p : pred AnnotatedRecord) rows :
  sorted (by_timestamp annotated_timestamp) rows ->
  earliest [seq r <- rows | p r] =
  if [seq r <- rows | p r] is r :: _ then timestamp r else 0%N.
Proof.
move=> sorted_rows.
have: sorted (by_timestamp annotated_timestamp) [seq r <- rows | p r].
  exact: sorted_filter (@by_timestamp_trans _ _) _ _ sorted_rows.
by case: [seq r <- rows | p r] => [|r s] // /earliest_sorted.
Qed.

Lemma time_in_storeE rows :
  sorted (by_timestamp annotated_timestamp) rows ->
  time_in_store rows =
  if has exit rows && has entry rows then
    Ok ((earliest [seq r <- rows | exit r])%:Z -
        (earliest [seq r <- rows | entry r])%:Z)
  else Raise IndexError.
Proof.
move=> sorted_rows; rewrite /time_in_store !earliest_filter // !has_filter.
case: [seq r <- rows | exit r] => [|x xs] //=.
by case: [seq r <- rows | entry r] => [|e es].
Qed.

Lemma collect_groups (A : Type) (f : string -> result A) (ok : pred string)
    (g : string -> A) (ks : seq string) :
  (forall c, f c = if ok c then Ok (g c) else Raise IndexError) ->
  collect [seq bind_result (f c) (fun d => Ok (c, d)) | c <- ks] =
  if all ok ks then Ok [seq (c, g c) | c <- ks] else Raise IndexError.
Proof.
move=> fE; elim: ks => [|c ks IH] //=.
by rewrite fE IH; case: (ok c) => //=; case: (all ok ks).
Qed.

End TimeInStore.

(** C4: on a tagged table sorted by timestamp,
    compute_customer_time_in_store maps every customer to the timestamp of
    the customer's earliest exit = true row minus the timestamp of the
    customer's earliest entry = true row when every customer has both, and
    raises IndexError (the MissingData failure) as soon as one customer
    has no entry = true row or no exit = true row. *)
Theorem compute_customer_time_in_store_spec (df : seq AnnotatedRecord) :
  sorted (by_timestamp annotated_timestamp) df ->
  compute_customer_time_in_store df =
  if all (fun c => has exit (customer_rows df c) &&
                   has entry (customer_rows df c))
         (sort String.leb (undup (customers df)))
  then
    Ok [seq (c, (earliest [seq r <- customer_rows df c | exit r])%:Z -
                (earliest [seq r <- customer_rows df c | entry r])%:Z)
       | c <- sort String.leb (undup (customers df))]
  else Raise IndexError.
Proof.
move=> sorted_df; rewrite /compute_customer_time_in_store.
apply: collect_groups => c; apply: time_in_storeE.
exact: sorted_filter (@by_timestamp_trans _ _) _ _ sorted_df.
Qed.

Lemma compute_customer_time_in_store_witness :
  compute_customer_time_in_store
    (add_entry_exit (kind := stable_kind)
       [:: Scan 0 1 "A" "dairy"; Scan 1 3 "B" "fruit";
           Scan 2 3 "A" "checkout"; Scan 3 4 "B" "spices";
           Scan 4 8 "B" "checkout"]) =
  Ok [:: ("A", 2%:Z); ("B", 5%:Z)]%string /\
  compute_customer_time_in_store
    (add_entry_exit (kind := stable_kind)
       [:: Scan 0 1 "A" "dairy"; Scan 1 3 "B" "fruit";
           Scan 2 3 "A" "checkout"]) = Raise IndexError.
Proof. by split; rewrite compute_customer_time_in_store_spec. Defined.

(* --------------------------------------------------------------------- *)
(* The sum of customer_count_change                                       *)
(* --------------------------------------------------------------------- *)

Section CountChange.

Implicit Types (df rows : seq AnnotatedRecord) (c : string).

Lemma sum_ofE (s : seq int) : sum_of s = \sum_(x <- s) x.
Proof. exact: foldrE. Qed.

(* A sum over the rows of a frame, customer by customer. *)
Lemma sum_by_customer (F : AnnotatedRecord -> int) (ks : seq string) df :
  uniq ks -> {subset customers df <= ks} ->
  \sum_(r <- df) F r =
  \sum_(c <- ks) \sum_(r <- customer_rows df c) F r.
Proof.
move=> uniq_ks; elim: df => [|r df IH] df_ks /=.
  by rewrite big_nil big1 // => c _; rewrite big_nil.
have r_ks : customer_no r \in ks by apply: df_ks; rewrite mem_head.
have {}IH :
    \sum_(x <- df) F x = \sum_(c <- ks) \sum_(x <- customer_rows df c) F x.
  by apply: IH => c c_df; apply: df_ks; rewrite in_cons c_df orbT.
rewrite big_cons IH.
rewrite (bigD1_seq _ r_ks uniq_ks) [in RHS](bigD1_seq _ r_ks uniq_ks) /=.
rewrite eqxx big_cons addrA; congr (_ + _).
rewrite big_seq_cond [in RHS]big_seq_cond; apply: eq_bigr => c /andP[_ c_r].
by rewrite eq_sym (negbTE c_r).
Qed.

Lemma sum_changes rows :
  all (fun r : AnnotatedRecord =>
         customer_count_change r ==
           if exit r then -1 else if entry r then 1 else 0) rows ->
  ~~ has (fun r : AnnotatedRecord => entry r && exit r) rows ->
  \sum_(r <- rows) customer_count_change r =
  (count entry rows)%:Z - (count exit rows)%:Z.
Proof.
elim: rows => [|r rows IH] /=; first by rewrite big_nil.
move=> /andP[/eqP r_change /IH{}IH]; rewrite negb_or => /andP[r_once /IH{}IH].
rewrite big_cons IH r_change; move: r_once.
case: (entry r); case: (exit r) => //= _.
- by rewrite add0n PoszD addrA.
- by rewrite add0n PoszD opprD !addrA [-1 + _]addrC.
- by rewrite !add0n add0r.
Qed.

(* After tagging, every customer has exactly one entry = true row. *)
Lemma count_entry_customer {kind : sort_kind} (df : seq ScanRecord) c :
  c \in customers (add_entry_exit df) ->
  count entry (customer_rows (add_entry_exit df) c) = 1%N.
Proof.
rewrite add_entry_exitE; set s := sort_values timestamp df => c_out.
rewrite -size_filter -filter_predI.
have -> : [seq r <- tag_from [::] s
          | predI entry (fun r : AnnotatedRecord => customer_no r == c) r] =
          [seq r : AnnotatedRecord <- tag_from [::] s
          | entry r && (customer_no r == c)] by [].
rewrite entry_rows_fresh // size_map.
have: has (fun r => customer_no r == c) s.
  move: c_out; rewrite (map_comp customer_no scan) scan_tag_from.
  by move=> /mapP[r r_s ->]; apply/hasP; exists r.
by rewrite has_filter; case: [seq r <- s | _] => [|x l] //=; rewrite take0.
Qed.

End CountChange.

(** C8 (as amended): for every table produced by add_entry_exit in which
    every customer has exactly one exit = true row, and that row is not the
    customer's entry = true row, the sum of customer_count_change over all
    rows is zero. *)
Theorem customer_count_change_balanced {kind : sort_kind}
    (df : seq ScanRecord) :
  exits_once_after_entry (add_entry_exit df) ->
  sum_of [seq customer_count_change r | r <- add_entry_exit df] = 0.
Proof.
set t := add_entry_exit df => /allP once.
rewrite sum_ofE big_map.
have t_customers : {subset customers t <= undup (customers t)}.
  by move=> c; rewrite mem_undup.
rewrite (sum_by_customer _ (undup_uniq _) t_customers).
apply: big1_seq => c /=; rewrite mem_undup => c_out.
have /andP[/eqP exit_once no_both] := once c c_out.
have cells_c : all (fun r : AnnotatedRecord =>
                      customer_count_change r ==
                        if exit r then -1 else if entry r then 1 else 0)
                   (customer_rows t c).
  apply/allP => r; rewrite mem_filter /t add_entry_exitE => /andP[_].
  by move/(allP (tag_from_cells _ _)) => /andP[].
by rewrite (sum_changes cells_c no_both) exit_once count_entry_customer ?subrr.
Qed.

Lemma customer_count_change_balanced_witness :
  sum_of
    [seq customer_count_change r
    | r <- add_entry_exit (kind := stable_kind)
             [:: Scan 0 1 "A" "dairy"; Scan 1 3 "B" "fruit";
                 Scan 2 3 "A" "checkout"; Scan 3 4 "B" "spices";
                 Scan 4 8 "B" "checkout"]] = 0.
Proof. by apply: customer_count_change_balanced. Defined.

(* A customer whose first row is at the checkout has both an entry = true
   row and an exit = true row, and the sum of customer_count_change is -1,
   not zero. *)
Lemma customer_count_change_unbalanced :
  entered_and_exited
    (add_entry_exit (kind := stable_kind) [:: Scan 0 1 "A" "checkout"]) /\
  sum_of [seq customer_count_change r
         | r <- add_entry_exit (kind := stable_kind)
                  [:: Scan 0 1 "A" "checkout"]] = -1.
Proof. by []. Qed.

(* The same for every kind of sort: a frame of one row is left as it is. *)
Lemma one_row_unbalanced {kind : sort_kind} :
  entered_and_exited (add_entry_exit [:: Scan 0 1 "A" "checkout"]) /\
  sum_of [seq customer_count_change r
         | r <- add_entry_exit [:: Scan 0 1 "A" "checkout"]] = -1.
Proof. by rewrite add_entry_exitE sort_values_small. Qed.

(* --------------------------------------------------------------------- *)
(* customers_by_location                                                  *)
(* --------------------------------------------------------------------- *)

(** C6 (as amended): for every table and every list of requested
    locations, customers_by_location returns one numeric column per
    requested location, in the requested order, holding for every
    timestamp the number of rows at that timestamp and location, when
    every requested location occurs in the table; a requested location
    with zero occurrences in the table makes the call raise KeyError. *)
Theorem customers_by_location_spec
    (df : seq ScanRecord) (locations : seq string) :
  customers_by_location df locations =
  if all (fun l => l \in [seq location r | r <- df]) locations then
    Ok (Frame locations
          [seq (T, [seq count (fun r => (timestamp r == T) &&
                                        (location r == l)) df
                   | l <- locations])
          | T <- sort leq (undup [seq timestamp r | r <- df])])
  else Raise KeyError.
Proof.
rewrite /customers_by_location /loc_columns /=.
set present := sort _ _.
have presentE l : (l \in present) = (l \in [seq location r | r <- df]).
  by rewrite mem_sort mem_undup.
rewrite (eq_all presentE); case: ifP => // /allP located.
congr (Ok (Frame _ _)); rewrite -map_comp; apply: eq_map => T /=.
congr (_, _); apply/eq_in_map => l /located; rewrite -presentE => l_present.
by rewrite (nth_map ""%string) ?index_mem // nth_index.
Qed.

(* A requested location that no row of the table has is an error, not a
   column of zeros. *)
Lemma customers_by_location_missing :
  customers_by_location
    [:: Scan 0 1 "A" "dairy"; Scan 1 2 "A" "checkout"]
    [:: "dairy"; "spices"]%string = Raise KeyError.
Proof. by []. Qed.

(* --------------------------------------------------------------------- *)
(* get_transition_matrix                                                  *)
(* --------------------------------------------------------------------- *)

Section Crosstab.

Variables (a : seq string) (b : seq (option string)).

Lemma crosstab_row_sum (row : string * seq rat) :
  row \in rows (crosstab_normalize_index a b) -> sum_of row.2 = 1.
Proof.
rewrite /crosstab_normalize_index /=.
set pairs := pmap _ _; set cols := sort _ (undup [seq p.2 | p <- pairs]).
case/mapP => i; rewrite mem_sort mem_undup => /mapP[[i' j] ij_pairs /= ->] ->.
rewrite /sum_of /= !foldrE !big_map -mulr_suml -natr_sum divff //.
rewrite pnatr_eq0 -lt0n.
have j_cols : j \in cols.
  by rewrite mem_sort mem_undup; apply/mapP; exists (i', j).
have uniq_cols : uniq cols by rewrite sort_uniq undup_uniq.
rewrite (bigD1_seq _ j_cols uniq_cols) /= addn_gt0 -has_count.
by apply/orP; left; apply/hasP; exists (i', j) => /=.
Qed.

End Crosstab.

(** C5: in the matrix returned by get_transition_matrix, the entries of
    every row that is present sum to 1 (in exact arithmetic; a source
    location with no observed outbound transition is not a row of the
    matrix). *)
Theorem transition_matrix_rows_sum_to_one {kind : sort_kind}
    (loaded : seq ScanRecord)
    (add_entrance_location : seq AnnotatedRecord -> seq AnnotatedRecord)
    (m : frame string rat) (row : string * seq rat) :
  get_transition_matrix loaded add_entrance_location = Ok m ->
  row \in rows m -> sum_of row.2 = 1.
Proof.
rewrite /get_transition_matrix.
case: filter_non_exiting_customers => [df|e] //= [<-].
exact: crosstab_row_sum.
Qed.

Lemma transition_matrix_rows_sum_to_one_witness :
  sum_of [:: 1%:R / 2%:R; 0; 1%:R / 2%:R : rat] = 1.
Proof.
apply: (@transition_matrix_rows_sum_to_one stable_kind spec_example
          entrance_before_entry
          (frame_of
             (get_transition_matrix (kind := stable_kind) spec_example
                entrance_before_entry))
          ("dairy"%string, [:: 1%:R / 2%:R; 0; 1%:R / 2%:R])).
- by vm_compute.
- by vm_compute.
Defined.

Example transition_matrix_spec_example :
  let m :=
    frame_of
      (get_transition_matrix (kind := stable_kind) spec_example
         entrance_before_entry) in
  (columns m == [:: "checkout"; "dairy"; "spices"]%string) &&
  (rows m == [:: ("dairy"%string, [:: 1%:R / 2%:R; 0; 1%:R / 2%:R]);
                 ("entrance"%string, [:: 0; 1; 0]);
                 ("spices"%string, [:: 1; 0; 0])]).
Proof. by vm_compute. Qed.

(* ===================================================================== *)
(* Further properties                                                     *)
(* ===================================================================== *)

(* --------------------------------------------------------------------- *)
(* add_entry_exit                                                         *)
(* --------------------------------------------------------------------- *)

(** X1: add_entry_exit returns the rows of its input, each once, in
    ascending order of timestamp. *)
Theorem add_entry_exit_sorts_rows {kind : sort_kind} (df : seq ScanRecord) :
  perm_eq [seq scan r | r <- add_entry_exit df] df /\
  sorted leq (timestamps (add_entry_exit df)).
Proof.
split.
  by rewrite add_entry_exitE scan_tag_from perm_sort_values.
by rewrite sorted_map; exact: add_entry_exit_sorted.
Qed.

(** X2: in the output of add_entry_exit, exit is true exactly on the rows
    at the checkout, and customer_count_change is -1 on the exit rows, 1 on
    the other entry rows and 0 on all other rows. *)
Theorem add_entry_exit_cells {kind : sort_kind} (df : seq ScanRecord)
    (r : AnnotatedRecord) :
  r \in add_entry_exit df ->
  exit r = (location r == "checkout"%string) /\
  customer_count_change r = (if exit r then -1 else if entry r then 1 else 0).
Proof.
rewrite add_entry_exitE => /(allP (tag_from_cells _ _)) /andP[/eqP -> /eqP ->].
by [].
Qed.

Lemma add_entry_exit_cells_witness :
  exit (Annotated (Scan 1 184 "1" "dairy") false false 0) =
    (location (Annotated (Scan 1 184 "1" "dairy") false false 0) ==
       "checkout"%string) /\
  customer_count_change (Annotated (Scan 1 184 "1" "dairy") false false 0) = 0.
Proof.
by apply: (@add_entry_exit_cells stable_kind
             [:: Scan 0 183 "1" "checkout"; Scan 1 184 "1" "dairy"]).
Defined.

Lemma tag_from_first (seen : seq string) (df : seq ScanRecord) :
  uniq df -> tag_from seen df = [seq tag_first seen df r | r <- df].
Proof.
elim: df seen => [|r df IH] seen //= /andP[r_df uniq_df].
rewrite {1}/tag_first /= eqxx /= eqxx andbT -/(tag_row seen r); congr cons.
rewrite (IH _ uniq_df); apply/eq_in_map => r' r'_df.
rewrite /tag_first /= in_cons negb_or [customer_no r == _]eq_sym.
case: (boolP (customer_no r' == customer_no r)) => //= _.
have -> : (Some r == Some r') = false.
  by apply/negbTE/eqP => -[r_r']; rewrite r_r' r'_df in r_df.
by rewrite andbF.
Qed.

(** X3: on a frame in which no customer has two rows with the same
    timestamp, tagging a frame that is already tagged returns the same rows
    with the same three columns, rows of equal timestamp possibly in
    another order. *)
Theorem add_entry_exit_again {kind : sort_kind} (df : seq ScanRecord) :
  uniq [seq (customer_no r, timestamp r) | r <- df] ->
  perm_eq (add_entry_exit [seq scan r | r <- add_entry_exit df])
          (add_entry_exit df).
Proof.
move=> visits_df; rewrite !add_entry_exitE scan_tag_from.
set s := sort_values timestamp df.
have perm_s : perm_eq s df by exact: perm_sort_values.
have visits_s : uniq [seq (customer_no r, timestamp r) | r <- s].
  by rewrite (perm_uniq (perm_map _ perm_s)).
have uniq_s : uniq s by exact: map_uniq visits_s.
have perm_s2 : perm_eq (sort_values timestamp s) s by exact: perm_sort_values.
have uniq_s2 : uniq (sort_values timestamp s) by rewrite (perm_uniq perm_s2).
rewrite (tag_from_first _ uniq_s2) (tag_from_first _ uniq_s).
have same_first : tag_first [::] (sort_values timestamp s) =1 tag_first [::] s.
  move=> r; rewrite /tag_first.
  rewrite (customer_rows_sort_values
             (customer := fun x : ScanRecord => customer_no x)) //.
  exact: sort_values_sorted.
by rewrite (eq_map same_first); exact: perm_map.
Qed.

Lemma add_entry_exit_again_witness :
  uniq [:: ("B"%string, 2%N); ("A"%string, 2%N); ("A"%string, 1%N)] /\
  perm_eq
    (add_entry_exit (kind := stable_kind)
       [seq scan r
       | r <- add_entry_exit (kind := stable_kind)
                [:: Scan 0 2 "B" "fruit"; Scan 1 2 "A" "checkout";
                    Scan 2 1 "A" "dairy"]])
    (add_entry_exit (kind := stable_kind)
       [:: Scan 0 2 "B" "fruit"; Scan 1 2 "A" "checkout";
           Scan 2 1 "A" "dairy"]).
Proof.
split; first by [].
by apply: (@add_entry_exit_again stable_kind
             [:: Scan 0 2 "B" "fruit"; Scan 1 2 "A" "checkout";
                 Scan 2 1 "A" "dairy"]).
Defined.

(* --------------------------------------------------------------------- *)
(* filter_non_exiting_customers                                           *)
(* --------------------------------------------------------------------- *)

(** X4: after filter_non_exiting_customers the last row of every customer
    still in the table has exit = true. *)
Theorem filter_leaves_exiting_customers {kind : sort_kind}
    (df : seq AnnotatedRecord) :
  uniq (labels df) ->
  exists out : seq AnnotatedRecord,
    filter_non_exiting_customers df = Ok out /\
    all (reaches_checkout out) (customers out).
Proof.
move=> uniq_df; rewrite filter_non_exiting_customersE //.
set kept := [seq r <- _ | _]; exists (reset_index kept); split=> //.
rewrite reset_indexE relabel_map // (eq_all (reaches_checkout_relabel 0 kept)).
by rewrite all_map; apply/all_filterP; exact: kept_fixed.
Qed.

Lemma filter_leaves_exiting_customers_witness :
  exists out : seq AnnotatedRecord,
    filter_non_exiting_customers (kind := stable_kind)
      (add_entry_exit (kind := stable_kind)
         [:: Scan 0 3 "B" "spices"; Scan 1 2 "B" "fruit";
             Scan 2 2 "A" "checkout"; Scan 3 1 "A" "dairy"]) = Ok out /\
    all (reaches_checkout out) (customers out).
Proof. by apply: filter_leaves_exiting_customers. Defined.

(** X5: filter_non_exiting_customers raises ValueError on a table in which
    two rows carry the same index label, unless the labels of the sorted
    table read the same in both directions. *)
Theorem filter_duplicate_labels {kind : sort_kind} (df : seq AnnotatedRecord) :
  ~~ uniq (labels df) ->
  rev (labels (sort_values annotated_timestamp df)) !=
  labels (sort_values annotated_timestamp df) ->
  filter_non_exiting_customers df = Raise ValueError.
Proof.
move=> dup_df not_palindrome; rewrite /filter_non_exiting_customers.
set s := sort_values _ df in not_palindrome *.
have size_value :
    size (labels (rev s)) =
    size [seq ~~ d | d <- duplicated (customers (rev s))].
  by rewrite !size_map size_duplicated_from size_map.
rewrite /setitem_align unzip1_zip ?size_value // map_rev.
rewrite (negbTE not_palindrome) rev_uniq.
by rewrite (perm_uniq (perm_map _ (perm_sort_values _ _))) dup_df.
Qed.

Lemma filter_duplicate_labels_witness :
  filter_non_exiting_customers (kind := stable_kind)
    [:: Annotated (Scan 0 1 "A" "dairy") true false 1;
        Annotated (Scan 1 2 "A" "checkout") false true (-1);
        Annotated (Scan 1 3 "B" "fruit") true false 1] = Raise ValueError.
Proof. by apply: filter_duplicate_labels. Defined.

(** X6: filter_non_exiting_customers never truncates a customer: the rows
    of a customer are all kept, in order and with their cells unchanged,
    when the customer's last row has exit = true, and all removed
    otherwise. *)
Theorem filter_keeps_customers_whole {kind : sort_kind}
    (df : seq AnnotatedRecord) (c : string) :
  uniq (labels df) ->
  exists out : seq AnnotatedRecord,
    filter_non_exiting_customers df = Ok out /\
    [seq cells r | r <- customer_rows out c] =
    if reaches_checkout (sort_values annotated_timestamp df) c then
      [seq cells r | r <- customer_rows (sort_values annotated_timestamp df) c]
    else [::].
Proof.
move=> uniq_df; rewrite filter_non_exiting_customersE //.
set s := sort_values _ df; eexists; split; first by [].
rewrite reset_indexE /customer_rows relabel_filter_map // customer_rows_kept.
by case: ifP.
Qed.

Lemma filter_keeps_customers_whole_witness :
  exists out : seq AnnotatedRecord,
    filter_non_exiting_customers (kind := stable_kind)
      (add_entry_exit (kind := stable_kind)
         [:: Scan 0 3 "B" "spices"; Scan 1 2 "B" "fruit";
             Scan 2 2 "A" "checkout"; Scan 3 1 "A" "dairy"]) = Ok out /\
    [seq cells r | r <- customer_rows out "A"] =
    [:: (1%N, "A", "dairy", true, false, 1);
        (2%N, "A", "checkout", false, true, -1)]%string.
Proof.
by apply: (@filter_keeps_customers_whole stable_kind
             (add_entry_exit
                [:: Scan 0 3 "B" "spices"; Scan 1 2 "B" "fruit";
                    Scan 2 2 "A" "checkout"; Scan 3 1 "A" "dairy"])
             "A"%string).
Defined.

(* --------------------------------------------------------------------- *)
(* compute_customer_time_in_store after tagging and filtering             *)
(* --------------------------------------------------------------------- *)

Section DurationsAfterFilter.

Implicit Types (df rows : seq AnnotatedRecord) (c : string).

Lemma compute_customer_time_in_storeE df :
  sorted (by_timestamp annotated_timestamp) df ->
  compute_customer_time_in_store df =
  if all (fun c => has exit (customer_rows df c) &&
                   has entry (customer_rows df c))
         (sort String.leb (undup (customers df)))
  then
    Ok [seq (c, (earliest [seq r <- customer_rows df c | exit r])%:Z -
                (earliest [seq r <- customer_rows df c | entry r])%:Z)
       | c <- sort String.leb (undup (customers df))]
  else Raise IndexError.
Proof.
move=> sorted_df; rewrite /compute_customer_time_in_store.
apply: collect_groups => c; apply: time_in_storeE.
exact: sorted_filter (@by_timestamp_trans _ _) _ _ sorted_df.
Qed.

Lemma time_in_store_timestamps rows :
  time_in_store rows =
  match [seq timestamp r | r : AnnotatedRecord <- rows & exit r],
        [seq timestamp r | r : AnnotatedRecord <- rows & entry r] with
  | x :: _, e :: _ => Ok (x%:Z - e%:Z)
  | _, _ => Raise IndexError
  end.
Proof.
rewrite /time_in_store.
case: [seq r <- rows | exit r] => [|x xs] //=.
by case: [seq r <- rows | entry r] => [|e es].
Qed.

(* The durations do not depend on the index labels. *)
Lemma compute_customer_time_in_store_relabel (n : nat) df :
  compute_customer_time_in_store (relabel_from n df) =
  compute_customer_time_in_store df.
Proof.
rewrite /compute_customer_time_in_store relabel_map //.
congr collect; apply: eq_map => c; congr bind_result.
by rewrite !time_in_store_timestamps -!filter_predI !relabel_filter_map.
Qed.

Lemma sorted_tag_from (seen : seq string) (s : seq ScanRecord) :
  sorted (by_timestamp annotated_timestamp) (tag_from seen s) =
  sorted (by_timestamp timestamp) s.
Proof.
have -> : sorted (by_timestamp annotated_timestamp) =1
          fun t => sorted (by_timestamp timestamp) [seq scan r | r <- t].
  by move=> t; rewrite sorted_map.
by rewrite scan_tag_from.
Qed.

(* The first row of a customer in a tagged frame is its entry row. *)
Lemma customer_rows_tag_head (seen : seq string) (s : seq ScanRecord) c :
  c \notin seen ->
  if customer_rows (tag_from seen s) c is a :: _ then entry a else true.
Proof.
rewrite /customer_rows; elim: s seen => [|r s IH] seen c_seen //=.
case: eqP => [r_c|/eqP r_c] /=; first by rewrite r_c.
by apply: IH; rewrite in_cons negb_or eq_sym r_c.
Qed.

Lemma reaches_checkout_has_exit df c :
  reaches_checkout df c -> has exit (customer_rows df c).
Proof.
rewrite /reaches_checkout -/(customer_rows df c) => last_exit.
have := mem_last false [seq exit r | r <- customer_rows df c].
rewrite last_exit in_cons /= => /mapP[r r_c exit_r].
by apply/hasP; exists r.
Qed.

(* In a tagged frame, sorted again, the customers whose last row is an exit
   enter no later than they exit. *)
Lemma tagged_customer_enters_first {kind : sort_kind} (s : seq ScanRecord) c :
  sorted (by_timestamp timestamp) s ->
  let s2 := sort_values annotated_timestamp (tag_from [::] s) in
  reaches_checkout s2 c ->
  [/\ has exit (customer_rows s2 c), has entry (customer_rows s2 c)
    & (earliest [seq r <- customer_rows s2 c | entry r] <=
       earliest [seq r <- customer_rows s2 c | exit r])%N].
Proof.
move=> sorted_s s2 c_out; have has_exit := reaches_checkout_has_exit c_out.
set t := tag_from [::] s in s2 c_out has_exit *.
have perm_c : perm_eq (customer_rows s2 c) (customer_rows t c).
  exact: perm_filter_sort_values.
have sorted_t : sorted (by_timestamp annotated_timestamp) (customer_rows t c).
  apply: sorted_filter; first exact: by_timestamp_trans.
  by rewrite sorted_tag_from.
have sorted_s2 : sorted (by_timestamp annotated_timestamp) (customer_rows s2 c).
  apply: sorted_filter; first exact: by_timestamp_trans.
  exact: sort_values_sorted.
have one_entry : (size [seq r <- customer_rows t c | entry r] <= 1)%N.
  rewrite /customer_rows -filter_predI.
  have -> : [seq r <- t
            | predI entry (fun r : AnnotatedRecord => customer_no r == c) r] =
            [seq r : AnnotatedRecord <- t | entry r && (customer_no r == c)].
    by [].
  by rewrite entry_rows_fresh // size_map size_take; case: ltnP.
have entries : perm_eq [seq r <- customer_rows s2 c | entry r]
                       [seq r <- customer_rows t c | entry r].
  by rewrite perm_filter.
have := @customer_rows_tag_head [::] s c isT; rewrite -/t.
move: perm_c sorted_t one_entry entries.
case: (customer_rows t c) => [|a rows] perm_c sorted_t.
  by move: has_exit; rewrite (perm_small_eq _ perm_c).
move=> /= one_entry entries entry_a; move: one_entry entries; rewrite entry_a.
move=> one_entry /(perm_small_eq one_entry) entries.
have a_first : [seq r <- customer_rows s2 c | entry r] = [:: a].
  rewrite entries; congr cons.
  by move: one_entry => /=; case: [seq r <- rows | entry r].
split=> //; first by rewrite has_filter a_first.
rewrite a_first earliest_filter //=.
move: has_exit; rewrite has_filter.
have: {subset [seq r <- customer_rows s2 c | exit r] <= a :: rows}.
  by move=> r; rewrite mem_filter (perm_mem perm_c) => /andP[].
case: [seq r <- customer_rows s2 c | exit r] => [|x xs] // x_rows _.
have: x \in a :: rows by apply: x_rows; rewrite mem_head.
rewrite in_cons => /orP[/eqP -> //|x_in].
exact: (allP (sorted_head_min sorted_t)).
Qed.

End DurationsAfterFilter.

(** X7: on a frame tagged by add_entry_exit and then filtered by
    filter_non_exiting_customers, compute_customer_time_in_store does not
    raise: it returns one duration per remaining customer, and no duration
    is negative. *)
Theorem durations_after_filter {kind : sort_kind} (df : seq ScanRecord) :
  uniq [seq row_label r | r <- df] ->
  exists (out : seq AnnotatedRecord) (m : seq (string * int)),
    [/\ filter_non_exiting_customers (add_entry_exit df) = Ok out,
        compute_customer_time_in_store out = Ok m,
        [seq p.1 | p <- m] = sort String.leb (undup (customers out))
      & all (fun p => 0 <= p.2) m].
Proof.
move=> uniq_df.
rewrite (filter_non_exiting_customersE (add_entry_exit_labels uniq_df)).
set s2 := sort_values _ (add_entry_exit df); set kept := [seq r <- s2 | _].
have sorted_kept : sorted (by_timestamp annotated_timestamp) kept.
  apply: sorted_filter; first exact: by_timestamp_trans.
  exact: sort_values_sorted.
have enters_first c : c \in customers kept ->
    [/\ has exit (customer_rows kept c), has entry (customer_rows kept c)
      & (earliest [seq r <- customer_rows kept c | entry r] <=
         earliest [seq r <- customer_rows kept c | exit r])%N].
  case/mapP=> r; rewrite mem_filter => /andP[c_out _] c_r.
  move: c_out; rewrite -c_r => c_out.
  rewrite /customer_rows customer_rows_kept c_out -/(customer_rows s2 _).
  move: c_out; rewrite /s2 add_entry_exitE.
  by apply: tagged_customer_enters_first; exact: sort_values_sorted.
exists (reset_index kept); eexists; split; first by [].
- rewrite reset_indexE compute_customer_time_in_store_relabel.
  rewrite compute_customer_time_in_storeE // ifT //.
  apply/allP => c; rewrite mem_sort mem_undup => /enters_first[-> ->].
  by [].
- by rewrite -map_comp reset_indexE relabel_map // map_id.
- rewrite all_map; apply/allP => c; rewrite mem_sort mem_undup /=.
  by move=> /enters_first[_ _]; rewrite subr_ge0 lez_nat.
Qed.

Lemma durations_after_filter_witness :
  exists (out : seq AnnotatedRecord) (m : seq (string * int)),
    [/\ filter_non_exiting_customers (kind := stable_kind)
          (add_entry_exit (kind := stable_kind)
             [:: Scan 0 1 "A" "dairy"; Scan 1 3 "B" "fruit";
                 Scan 2 3 "A" "checkout"; Scan 3 4 "C" "spices";
                 Scan 4 8 "B" "checkout"]) = Ok out,
        compute_customer_time_in_store out = Ok m,
        [seq p.1 | p <- m] = sort String.leb (undup (customers out))
      & all (fun p => 0 <= p.2) m].
Proof. by apply: durations_after_filter. Defined.

(* --------------------------------------------------------------------- *)
(* customers_by_location                                                  *)
(* --------------------------------------------------------------------- *)

Section CountByLocation.

Implicit Types (df : seq ScanRecord) (locations : seq string).

Lemma customers_by_locationE df locations :
  customers_by_location df locations =
  if all (fun l => l \in [seq location r | r <- df]) locations then
    Ok (Frame locations
          [seq (T, [seq count (fun r => (timestamp r == T) &&
                                        (location r == l)) df
                   | l <- locations])
          | T <- sort leq (undup [seq timestamp r | r <- df])])
  else Raise KeyError.
Proof.
rewrite /customers_by_location /loc_columns /=.
set present := sort _ _.
have presentE l : (l \in present) = (l \in [seq location r | r <- df]).
  by rewrite mem_sort mem_undup.
rewrite (eq_all presentE); case: ifP => // /allP located.
congr (Ok (Frame _ _)); rewrite -map_comp; apply: eq_map => T /=.
congr (_, _); apply/eq_in_map => l /located; rewrite -presentE => l_present.
by rewrite (nth_map ""%string) ?index_mem // nth_index.
Qed.

(* Every row is counted under exactly one of the locations. *)
Lemma sum_counts_by_location (p : pred ScanRecord) df locations :
  uniq locations -> {subset [seq location r | r <- df] <= locations} ->
  sumn [seq count (fun r => p r && (location r == l)) df | l <- locations] =
  count p df.
Proof.
move=> uniq_locations; rewrite sumnE big_map.
elim: df => [|r df IH] located /=.
  by rewrite big1.
have r_located : location r \in locations by apply: located; rewrite mem_head.
have {}IH : (\sum_(l <- locations)
               count (fun r => p r && (location r == l)) df = count p df)%N.
  by apply: IH => l l_df; apply: located; rewrite in_cons l_df orbT.
rewrite big_split /= IH; congr (_ + _)%N.
rewrite (bigD1_seq _ r_located uniq_locations) /= eqxx andbT.
rewrite big1_seq ?addn0 // => l /andP[l_r _].
by rewrite eq_sym (negbTE l_r) andbF.
Qed.

End CountByLocation.

(** X8: when the requested locations are the locations of the table, each
    once, customers_by_location succeeds and the counts of every row add up
    to the number of rows of the table at that timestamp. *)
Theorem customers_by_location_row_sums
    (df : seq ScanRecord) (locations : seq string) :
  perm_eq locations (undup [seq location r | r <- df]) ->
  exists f : frame nat nat,
    customers_by_location df locations = Ok f /\
    all (fun row => sumn row.2 == count (fun r => timestamp r == row.1) df)
        (rows f).
Proof.
move=> locationsE.
have uniq_locations : uniq locations.
  by rewrite (perm_uniq locationsE) undup_uniq.
have located l : (l \in locations) = (l \in [seq location r | r <- df]).
  by rewrite (perm_mem locationsE) mem_undup.
have all_located : all (fun l => l \in [seq location r | r <- df]) locations.
  by apply/allP => l; rewrite located.
rewrite customers_by_locationE all_located.
eexists; split; first by [].
rewrite /= all_map; apply/allP => T _ /=.
by rewrite sum_counts_by_location // => l; rewrite located.
Qed.

Lemma customers_by_location_row_sums_witness :
  exists f : frame nat nat,
    customers_by_location
      [:: Scan 0 1 "A" "dairy"; Scan 1 1 "B" "fruit"; Scan 2 1 "C" "dairy";
          Scan 3 2 "A" "checkout"]
      [:: "fruit"; "checkout"; "dairy"]%string = Ok f /\
    all (fun row =>
           sumn row.2 ==
           count (fun r => timestamp r == row.1)
                 [:: Scan 0 1 "A" "dairy"; Scan 1 1 "B" "fruit";
                     Scan 2 1 "C" "dairy"; Scan 3 2 "A" "checkout"])
        (rows f).
Proof. by apply: customers_by_location_row_sums. Defined.

(** X9: a location given as a single str is looked up character by
    character: the call raises KeyError as soon as one character of the
    name is not itself a location of the table. *)
Theorem customers_by_location_single_name
    (df : seq ScanRecord) (name : string) :
  has (fun c => String c EmptyString \notin [seq location r | r <- df])
      (list_ascii_of_string name) ->
  customers_by_location_of df (inl name) = Raise KeyError.
Proof.
move=> missing; rewrite /customers_by_location_of customers_by_locationE /=.
by rewrite all_map -[all _ _]negbK -has_predC /= missing.
Qed.

Lemma customers_by_location_single_name_witness :
  customers_by_location_of
    [:: Scan 0 1 "A" "dairy"; Scan 1 2 "A" "checkout"] (inl "dairy"%string) =
  Raise KeyError.
Proof. by apply: customers_by_location_single_name. Defined.

(* --------------------------------------------------------------------- *)
(* compute_customer_total on a tagged frame                               *)
(* --------------------------------------------------------------------- *)

Section Occupancy.

Implicit Types (df rows : seq AnnotatedRecord) (c : string) (T : nat).

Notation until T rows :=
  [seq r : AnnotatedRecord <- rows | (timestamp r <= T)%N].

Lemma compute_customer_totalE df :
  sorted (by_timestamp annotated_timestamp) df ->
  compute_customer_total df =
  [seq (T, sum_of [seq customer_count_change r
                  | r : AnnotatedRecord <- df & (timestamp r <= T)%N])
  | T <- sort leq (undup (timestamps df))].
Proof.
move=> sorted_df; rewrite /compute_customer_total /cumsum.
apply/eq_in_map => T; rewrite mem_sort mem_undup => T_df.
by rewrite last_cumsum_from // T_df add0r.
Qed.

(* Up to any instant a customer of a tagged frame has entered at least as
   often as it has exited, if it exits at most once. *)
Lemma customer_balance_until (s : seq ScanRecord) c T :
  sorted (by_timestamp timestamp) s ->
  (count exit (customer_rows (tag_from [::] s) c) <= 1)%N ->
  (count exit (until T (customer_rows (tag_from [::] s) c)) <=
   count entry (until T (customer_rows (tag_from [::] s) c)))%N.
Proof.
move=> sorted_s.
have sorted_c :
    sorted (by_timestamp annotated_timestamp)
           (customer_rows (tag_from [::] s) c).
  apply: sorted_filter; first exact: by_timestamp_trans.
  by rewrite sorted_tag_from.
have := @customer_rows_tag_head [::] s c isT.
move: sorted_c; case: (customer_rows _ c) => [|a rows] // sorted_c entry_a.
move=> exit_once; have a_min := sorted_head_min sorted_c.
rewrite [filter _ _]/=; case: (leqP (timestamp a) T) => [a_T|T_a].
  have -> : a :: until T rows = until T (a :: rows) by rewrite /= a_T.
  apply: (@leq_trans 1%N); last by rewrite /= a_T /= entry_a.
  apply: leq_trans exit_once.
  by rewrite count_filter; apply: sub_count => r /andP[].
rewrite (@eq_in_filter _ _ pred0) ?filter_pred0 // => r r_rows /=.
by apply/negbTE; rewrite -ltnNge (leq_trans T_a) // (allP a_min).
Qed.

Lemma customer_rows_filter (p : pred AnnotatedRecord) df c :
  customer_rows [seq r <- df | p r] c = [seq r <- customer_rows df c | p r].
Proof.
rewrite /customer_rows -!filter_predI.
by apply: eq_filter => r /=; rewrite andbC.
Qed.

(* On a sorted list of naturals the last one is the greatest. *)
Lemma sorted_leq_last (d x : nat) (s : seq nat) :
  sorted leq s -> x \in s -> (x <= last d s)%N.
Proof.
elim: s d => [|y s IH] d //= y_s.
have y_min := order_path_min leq_trans y_s.
rewrite in_cons => /orP[/eqP ->|x_s]; last exact: IH (path_sorted y_s) x_s.
have := mem_last y s; rewrite in_cons => /orP[/eqP -> //|].
by move/(allP y_min).
Qed.

End Occupancy.

(** X10: on a frame tagged by add_entry_exit in which no customer has more
    than one exit = true row and no entry = true row is an exit = true
    row, no customer_total returned by compute_customer_total is
    negative. *)
Theorem customer_total_nonnegative {kind : sort_kind} (df : seq ScanRecord) :
  exits_at_most_once_after_entry (add_entry_exit df) ->
  all (fun p => 0 <= p.2) (compute_customer_total (add_entry_exit df)).
Proof.
set t := add_entry_exit df => /allP once.
rewrite compute_customer_totalE ?add_entry_exit_sorted // all_map.
apply/allP => T _ /=; rewrite sum_ofE big_map.
have t_customers :
    {subset customers [seq r : AnnotatedRecord <- t | (timestamp r <= T)%N]
     <= undup (customers t)}.
  move=> c /mapP[r]; rewrite mem_filter mem_undup => /andP[_ r_t] ->.
  exact: map_f.
rewrite (sum_by_customer _ (undup_uniq _) t_customers) big_seq.
apply: sumr_ge0 => c; rewrite mem_undup => c_t.
have /andP[exit_once no_both] := once c c_t.
rewrite customer_rows_filter.
set rows := [seq r : AnnotatedRecord <- customer_rows t c | _].
have no_both_T : ~~ has (fun r : AnnotatedRecord => entry r && exit r) rows.
  apply: contra no_both => /hasP[r]; rewrite mem_filter => /andP[_ r_c] both.
  by apply/hasP; exists r.
have cells_c : all (fun r : AnnotatedRecord =>
                      customer_count_change r ==
                        if exit r then -1 else if entry r then 1 else 0) rows.
  apply/allP => r; rewrite !mem_filter /t add_entry_exitE => /andP[_ /andP[_]].
  by move/(allP (tag_from_cells _ _)) => /andP[].
rewrite (sum_changes cells_c no_both_T) subr_ge0 lez_nat.
rewrite /rows /t add_entry_exitE; apply: customer_balance_until.
  exact: sort_values_sorted.
by rewrite -add_entry_exitE.
Qed.

Lemma customer_total_nonnegative_witness :
  all (fun p => 0 <= p.2)
      (compute_customer_total
         (add_entry_exit (kind := stable_kind)
            [:: Scan 0 1 "A" "dairy"; Scan 1 1 "B" "fruit";
                Scan 2 2 "A" "checkout"; Scan 3 3 "C" "spices";
                Scan 4 3 "B" "checkout"])).
Proof. by apply: customer_total_nonnegative. Defined.

(** X11: on a table sorted by timestamp, the last customer_total that
    compute_customer_total returns is the sum of customer_count_change over
    the whole table. *)
Theorem last_customer_total (df : seq AnnotatedRecord) :
  sorted (by_timestamp annotated_timestamp) df ->
  last 0 [seq p.2 | p <- compute_customer_total df] =
  sum_of [seq customer_count_change r | r <- df].
Proof.
move=> sorted_df; rewrite compute_customer_totalE // -map_comp.
set keys := sort leq _.
have keysE T : (T \in keys) = (T \in timestamps df).
  by rewrite mem_sort mem_undup.
have sorted_keys : sorted leq keys by exact: (sort_sorted leq_total).
case keys_df: keys keysE sorted_keys => [|k ks] keysE sorted_keys /=.
  case: df {sorted_df keys keys_df} keysE => [|r df] // /(_ (timestamp r)).
  by rewrite mem_head.
rewrite (last_map (fun T => sum_of _) ks k) /=; congr (sum_of (map _ _)).
apply/all_filterP/allP => r r_df.
apply: (sorted_leq_last k sorted_keys) => /=.
by rewrite keysE; exact: map_f.
Qed.

Lemma last_customer_total_witness :
  last 0 [seq p.2
         | p <- compute_customer_total
                  (add_entry_exit (kind := stable_kind)
                     [:: Scan 0 1 "A" "dairy"; Scan 1 1 "B" "fruit";
                         Scan 2 2 "A" "checkout"; Scan 3 3 "C" "spices"])] =
  2%:Z.
Proof. by rewrite last_customer_total. Defined.

(* --------------------------------------------------------------------- *)
(* get_transition_matrix                                                  *)
(* --------------------------------------------------------------------- *)

Section CrosstabCells.

Variables (a : seq string) (b : seq (option string)).

Lemma crosstab_row_cells (row : string * seq rat) :
  row \in rows (crosstab_normalize_index a b) ->
  size row.2 = size (columns (crosstab_normalize_index a b)) /\
  all (fun x => 0 <= x <= 1) row.2.
Proof.
rewrite /crosstab_normalize_index /=.
set pairs := pmap _ _; set cols := sort _ (undup [seq p.2 | p <- pairs]).
case/mapP => i _ -> /=; split; first by rewrite !size_map.
have uniq_cols : uniq cols by rewrite sort_uniq undup_uniq.
rewrite /sum_of foldrE big_map -natr_sum !all_map; apply/allP => j j_cols /=.
rewrite divr_ge0 ?ler0n //=.
set total := (\sum_(j' <- cols) _)%N.
have: (count_mem (i, j) pairs <= total)%N.
  by rewrite /total (bigD1_seq _ j_cols uniq_cols) /= leq_addr.
case: total => [|n]; first by rewrite invr0 mulr0 ler01.
by move=> le_total; rewrite ler_pdivrMr ?ltr0n // mul1r ler_nat.
Qed.

Lemma crosstab_sources (i : string) :
  i \in [seq row.1 | row <- rows (crosstab_normalize_index a b)] ->
  exists j, (i, Some j) \in zip a b.
Proof.
rewrite /crosstab_normalize_index /= -map_comp.
rewrite (@eq_map _ _ _ id) // map_id mem_sort mem_undup.
case/mapP => [[i' j] ij_pairs /= ->]; move: ij_pairs.
rewrite mem_pmap => /mapP[[i'' [j'|]] in_zip] //= [-> _].
by exists j'.
Qed.

End CrosstabCells.

(* A position where the next location is kept is a row that is no exit. *)
Lemma next_location_kept (df : seq AnnotatedRecord)
    (shifted : seq (option string)) (i j : string) :
  (i, Some j) \in
    zip [seq location r | r : AnnotatedRecord <- df]
        (where_cond [seq ~~ exit r | r <- df] shifted) ->
  exists r : AnnotatedRecord, [/\ r \in df, location r = i & ~~ exit r].
Proof.
rewrite /where_cond; elim: df shifted => [|r df IH] [|x shifted] //=.
rewrite in_cons => /orP[/eqP[-> exit_r]|/IH[r' [r'_df loc_r' exit_r']]].
  by exists r; split=> //; [rewrite mem_head | case: (exit r) exit_r].
by exists r'; split=> //; rewrite in_cons r'_df orbT.
Qed.

(** X12: every row of the matrix returned by get_transition_matrix has one
    entry per column, and every entry lies between 0 and 1. *)
Theorem transition_matrix_entries {kind : sort_kind}
    (loaded : seq ScanRecord)
    (add_entrance_location : seq AnnotatedRecord -> seq AnnotatedRecord)
    (m : frame string rat) (row : string * seq rat) :
  get_transition_matrix loaded add_entrance_location = Ok m ->
  row \in rows m ->
  size row.2 = size (columns m) /\ all (fun x => 0 <= x <= 1) row.2.
Proof.
rewrite /get_transition_matrix.
case: filter_non_exiting_customers => [df|e] //= [<-].
exact: crosstab_row_cells.
Qed.

Lemma transition_matrix_entries_witness :
  size [:: 1%:R / 2%:R; 0; 1%:R / 2%:R : rat] = 3%N /\
  all (fun x : rat => 0 <= x <= 1) [:: 1%:R / 2%:R; 0; 1%:R / 2%:R].
Proof.
apply: (@transition_matrix_entries stable_kind spec_example
          entrance_before_entry
          (frame_of
             (get_transition_matrix (kind := stable_kind) spec_example
                entrance_before_entry))
          ("dairy"%string, [:: 1%:R / 2%:R; 0; 1%:R / 2%:R])).
- by vm_compute.
- by vm_compute.
Defined.

(** X13: no transition is counted out of an exit row: every source
    location of the matrix returned by get_transition_matrix is the
    location of a row with exit = false of the frame that
    add_entrance_location returned. *)
Theorem transition_matrix_sources {kind : sort_kind}
    (loaded : seq ScanRecord)
    (add_entrance_location : seq AnnotatedRecord -> seq AnnotatedRecord)
    (m : frame string rat) (i : string) :
  get_transition_matrix loaded add_entrance_location = Ok m ->
  i \in [seq row.1 | row <- rows m] ->
  exists (out : seq AnnotatedRecord) (r : AnnotatedRecord),
    [/\ filter_non_exiting_customers (add_entry_exit loaded) = Ok out,
        r \in add_entrance_location out, location r = i & ~~ exit r].
Proof.
rewrite /get_transition_matrix.
case: filter_non_exiting_customers => [out|e] //= [<-].
move=> /crosstab_sources[j] /next_location_kept[r [r_df loc_r exit_r]].
by exists out, r; split=> //; rewrite mem_sort in r_df.
Qed.

Lemma transition_matrix_sources_witness :
  exists (out : seq AnnotatedRecord) (r : AnnotatedRecord),
    [/\ filter_non_exiting_customers (kind := stable_kind)
          (add_entry_exit (kind := stable_kind) spec_example) = Ok out,
        r \in entrance_before_entry out, location r = "spices"%string
      & ~~ exit r].
Proof.
apply: (@transition_matrix_sources stable_kind spec_example
          entrance_before_entry
          (frame_of
             (get_transition_matrix (kind := stable_kind) spec_example
                entrance_before_entry))).
- by vm_compute.
- by vm_compute.
Defined.

(* --------------------------------------------------------------------- *)
(* paths                                                                  *)
(* --------------------------------------------------------------------- *)

(** X14: when the file of the paths module is
    <root>/<package>/<subpackage>/<file>, project_root_path is <root>,
    root_module_path is <root>/<package>, data_dir_path is <root>/data and
    the data file of a day is <root>/data/<day.value>.csv. *)
Theorem paths_layout (root : Path) (package subpackage file : string)
    (day : WeekDay) :
  let module_file := root ++ [:: package; subpackage; file] in
  [/\ project_root_path module_file = Ok root,
      root_module_path module_file = Ok (root ++ [:: package]),
      data_dir_path module_file = Ok (root ++ [:: "data"%string])
    & day_data_file_path module_file day =
      Ok (root ++ [:: "data"%string; append (WeekDay_value day) ".csv"])].
Proof.
move=> module_file.
have root_ok : project_root_path module_file = Ok root.
  rewrite /project_root_path /parents size_cat /= addn3 /=.
  by rewrite !subSS subn0 take_size_cat.
have module_ok : root_module_path module_file = Ok (root ++ [:: package]).
  rewrite /root_module_path /parents size_cat /= addn3 /=.
  rewrite !subSS subn0 -[module_file]/(root ++ [:: package] ++ _).
  by rewrite catA take_size_cat // size_cat addn1.
split=> //; rewrite /day_data_file_path /data_dir_path root_ok /= /joinpath.
  by rewrite -cats1.
by rewrite -!cats1 -catA.
Qed.

(** X15: when the file of the paths module lies fewer than three levels
    below the root, project_root_path raises IndexError, and so do
    data_dir_path and day_data_file_path. *)
Theorem paths_too_shallow (module_file : Path) (day : WeekDay) :
  (size module_file <= 2)%N ->
  [/\ project_root_path module_file = Raise IndexError,
      data_dir_path module_file = Raise IndexError
    & day_data_file_path module_file day = Raise IndexError].
Proof.
move=> shallow.
have root_raises : project_root_path module_file = Raise IndexError.
  by rewrite /project_root_path /parents ltnNge shallow.
by rewrite /day_data_file_path /data_dir_path root_raises.
Qed.

Lemma paths_too_shallow_witness :
  [/\ project_root_path [:: "paths"; "__init__.py"]%string = Raise IndexError,
      data_dir_path [:: "paths"; "__init__.py"]%string = Raise IndexError
    & day_data_file_path [:: "paths"; "__init__.py"]%string MONDAY =
      Raise IndexError].
Proof. by apply: paths_too_shallow. Defined.

(** X16: different week days have different data files: a path that
    day_data_file_path returns for two days makes them the same day. *)
Theorem day_data_file_path_inj (module_file p : Path) (day1 day2 : WeekDay) :
  day_data_file_path module_file day1 = Ok p ->
  day_data_file_path module_file day2 = Ok p ->
  day1 = day2.
Proof.
rewrite /day_data_file_path; case: data_dir_path => [dir|e] //= [<-] [].
rewrite /joinpath => /rcons_inj[].
by case: day1; case: day2.
Qed.

Lemma day_data_file_path_inj_witness : TUESDAY = TUESDAY.
Proof.
by apply: (@day_data_file_path_inj
             [:: "home"; "project"; "supermarket_customer_behavior"; "paths";
                 "__init__.py"]%string
             [:: "home"; "project"; "data"; "tuesday.csv"]%string).
Defined.

(* --------------------------------------------------------------------- *)
(* load_day and load_all                                                  *)
(* --------------------------------------------------------------------- *)

Section LoadAll.

Variables (module_file : Path) (read_csv : Path -> result (seq CsvRow)).

Notation read_day day :=
  (bind_result (day_data_file_path module_file day) read_csv).

Lemma str_inj : injective str.
Proof.
move=> n1 n2 /(congr1 DecimalString.NilEmpty.uint_of_string).
rewrite !DecimalString.NilEmpty.usu => -[] /(congr1 Nat.of_uint).
by rewrite !DecimalNat.Unsigned.of_to.
Qed.

(* Labelling the rows 0, 1, 2, ... leaves what does not read the label. *)
Lemma map_zip_iota (A B : Type) (h : nat * A -> B) (h' : A -> B) (n : nat)
    (s : seq A) :
  (forall ix, h ix = h' ix.2) ->
  [seq h ix | ix <- zip (iota n (size s)) s] = [seq h' x | x <- s].
Proof. by move=> hE; elim: s n => [|x s IH] n //=; rewrite hE IH. Qed.

Lemma labels_reset_scan_index (df : seq ScanRecord) :
  [seq row_label r | r <- reset_scan_index df] = iota 0 (size df).
Proof.
rewrite /reset_scan_index -map_comp.
by elim: df 0%N => [|r df IH] n //=; rewrite IH.
Qed.

Lemma size_reset_scan_index (df : seq ScanRecord) :
  size (reset_scan_index df) = size df.
Proof. by rewrite -(size_map row_label) labels_reset_scan_index size_iota. Qed.

Lemma load_day_prefixed (day : WeekDay) :
  load_day module_file read_csv day true =
  bind_result (read_day day) (fun lines =>
    Ok [seq Scan il.1 (csv_timestamp il.2)
                 (customer_id day (csv_customer_no il.2)) (csv_location il.2)
       | il <- zip (iota 0 (size lines)) lines]).
Proof.
rewrite /load_day; case: day_data_file_path => [path|e] //=.
by case: read_csv => [lines|e] //=; rewrite /frame_of_lines -map_comp.
Qed.

Lemma load_all_labels (df : seq ScanRecord) :
  load_all module_file read_csv = Ok df ->
  [seq row_label r | r <- df] = iota 0 (size df).
Proof.
rewrite /load_all; case: collect => [days|e] //= [<-].
by rewrite labels_reset_scan_index size_reset_scan_index.
Qed.

End LoadAll.

(** X17: the customer numbers that load_day writes with
    prefix_customer_no tell the day and the number apart: two of them are
    equal only for the same day and the same number. *)
Theorem customer_id_inj (day1 day2 : WeekDay) (n1 n2 : nat) :
  customer_id day1 n1 = customer_id day2 n2 -> day1 = day2 /\ n1 = n2.
Proof.
by case: day1; case: day2 => //= -[/str_inj ->].
Qed.

Lemma customer_id_inj_witness : FRIDAY = FRIDAY /\ 1500%N = 1500%N.
Proof. by apply: customer_id_inj. Defined.

(** X18: when load_all succeeds, the rows of its frame are the lines of
    the five day files, Monday's first, each customer number prefixed with
    its day, and the rows are labelled 0, 1, 2, ... across the days. *)
Theorem load_all_rows (module_file : Path)
    (read_csv : Path -> result (seq CsvRow)) (df : seq ScanRecord) :
  load_all module_file read_csv = Ok df ->
  [seq row_label r | r <- df] = iota 0 (size df) /\
  [seq (timestamp r, customer_no r, location r) | r <- df] =
  flatten
    [seq [seq (csv_timestamp l, customer_id day (csv_customer_no l),
               csv_location l)
         | l <- day_lines module_file read_csv day]
    | day <- WeekDay_members].
Proof.
move=> load_ok; split; first exact: load_all_labels load_ok.
move: load_ok; rewrite /load_all /day_lines /= !load_day_prefixed.
do 5![case: (bind_result (day_data_file_path _ _) _) => [?|?] //=].
case=> <-; rewrite /reset_scan_index -map_comp.
rewrite (map_zip_iota (h' := fun r => (timestamp r, customer_no r, location r)))
        //.
rewrite !cats0 !map_cat -!map_comp.
pose line day l :=
  (csv_timestamp l, customer_id day (csv_customer_no l), csv_location l).
rewrite (map_zip_iota (h' := line MONDAY)) //.
rewrite (map_zip_iota (h' := line TUESDAY)) //.
rewrite (map_zip_iota (h' := line WEDNESDAY)) //.
rewrite (map_zip_iota (h' := line THURSDAY)) //.
by rewrite (map_zip_iota (h' := line FRIDAY)).
Qed.

Lemma load_all_rows_witness :
  [seq row_label r
  | r <- [:: Scan 0 1 "monday_1" "dairy"; Scan 1 2 "monday_1" "checkout";
             Scan 2 9 "tuesday_1" "fruit"]] = iota 0 3 /\
  [seq (timestamp r, customer_no r, location r)
  | r <- [:: Scan 0 1 "monday_1" "dairy"; Scan 1 2 "monday_1" "checkout";
             Scan 2 9 "tuesday_1" "fruit"]] =
  flatten
    [seq [seq (csv_timestamp l, customer_id day (csv_customer_no l),
               csv_location l)
         | l <- day_lines example_module_file example_read_csv day]
    | day <- WeekDay_members].
Proof. by apply: load_all_rows. Defined.

(** X19: load_all returns no partial frame: when the file of one of the
    days cannot be located or read, the call raises. *)
Theorem load_all_raises (module_file : Path)
    (read_csv : Path -> result (seq CsvRow)) (day : WeekDay) (e : exception) :
  bind_result (day_data_file_path module_file day) read_csv = Raise e ->
  exists e', load_all module_file read_csv = Raise e'.
Proof.
rewrite /load_all /= !load_day_prefixed.
by case: day => ->;
   do ?[case: (bind_result (day_data_file_path _ _) _) => [?|?] /=];
   eexists.
Qed.

Lemma load_all_raises_witness :
  exists e',
    load_all example_module_file
      (fun path =>
         if path == [:: "project"; "data"; "thursday.csv"]%string
         then Raise KeyError else example_read_csv path) = Raise e'.
Proof. by apply: (@load_all_raises _ _ THURSDAY KeyError). Defined.

(** X20: on the frame that load_all returns, tagging and filtering do not
    raise: the labels 0, 1, ... that load_all gives the rows are pairwise
    distinct, which is what filter_non_exiting_customers needs. *)
Theorem filter_of_load_all {kind : sort_kind} (module_file : Path)
    (read_csv : Path -> result (seq CsvRow)) (df : seq ScanRecord) :
  load_all module_file read_csv = Ok df ->
  exists out, filter_non_exiting_customers (add_entry_exit df) = Ok out.
Proof.
move=> /load_all_labels labels_df.
have uniq_df : uniq [seq row_label r | r <- df] by rewrite labels_df iota_uniq.
rewrite (filter_non_exiting_customersE (add_entry_exit_labels uniq_df)).
by eexists.
Qed.

Lemma filter_of_load_all_witness :
  exists out,
    filter_non_exiting_customers (kind := stable_kind)
      (add_entry_exit (kind := stable_kind)
         [:: Scan 0 1 "monday_1" "dairy"; Scan 1 2 "monday_1" "checkout";
             Scan 2 9 "tuesday_1" "fruit"]) = Ok out.
Proof.
by apply: (@filter_of_load_all stable_kind example_module_file
             example_read_csv).
Defined.
